(** * Access-quota ledger and single-flight orchestrator

    A shallow embedding of [auth_manager.py] (class [AuthManager], the
    SQLite-backed ledger of access codes and users) and of the job
    orchestration of [streamlit_app.py] ([process_video], [cleanup_memory],
    [login], [check_video_limit], [update_video_usage] and the handlers of
    the login form and of the two processing buttons), followed by the
    properties the specification states about them.

    Conventions of the embedding.
    - The two tables of [credentials/auth.db] are finite maps keyed by their
      primary keys; a connection works on its own view of the tables, which
      replaces the committed tables at a commit and is dropped at a rollback.
    - Every call into [sqlite3] ([connect], [execute] with the fetch that
      follows it, [commit]) may raise: the [n]-th call issued by the process
      raises when the fault plan says so.  [no_fault] is the store that
      never raises.  Records written through [logger] by the ledger are not
      part of its state.
    - [random.choices] reads an explicit sequence of draws.
    - The [while True] loop of [generate_unique_code] takes a bound on the
      number of iterations it is observed for; [Hang] is the observation
      that it has not finished within the bound.
    - Wall-clock readings are integers in microseconds, the resolution of
      [datetime]; the code between two calls into the pipeline takes no
      time.
    - The processing pipeline behind [bot] is a parameter: a call into it
      returns, raises, or is interrupted, after some time, and leaves a
      session state and a working directory of its choice.
    - The file system behind [shutil.rmtree] is a parameter: a call deletes
      the directory or leaves an entry in its place. *)

From stdpp Require Import gmap strings list fin_maps.
From Stdlib Require Import ZArith Lia Ascii.

(** ** Exceptions and the state-and-exception monad *)

Inductive exn : Type :=
  | IntegrityError (msg : string)     (* sqlite3.IntegrityError *)
  | OperationalError (msg : string).  (* any other sqlite3 fault *)

Definition str (e : exn) : string :=
  match e with
  | IntegrityError msg => msg
  | OperationalError msg => msg
  end.

Inductive result (A : Type) : Type :=
  | Return (a : A)
  | Raise (e : exn)
  | Hang.
Arguments Return {A} a.
Arguments Raise {A} e.
Arguments Hang {A}.

Definition M (S A : Type) : Type := S -> result A * S.

Definition ret {S A : Type} (a : A) : M S A := fun s => (Return a, s).

Definition bind {S A B : Type} (m : M S A) (k : A -> M S B) : M S B :=
  fun s =>
    match m s with
    | (Return a, s') => k a s'
    | (Raise e, s') => (Raise e, s')
    | (Hang, s') => (Hang, s')
    end.

Definition raise {S A : Type} (e : exn) : M S A := fun s => (Raise e, s).

Definition hang {S A : Type} : M S A := fun s => (Hang, s).

(** [try: m  except Exception as e: handler e] *)
Definition try_except {S A : Type} (m : M S A) (handler : exn -> M S A)
    : M S A :=
  fun s =>
    match m s with
    | (Raise e, s') => handler e s'
    | r => r
    end.

Declare Scope py_scope.
Delimit Scope py_scope with py.
Notation "'let*' x := m 'in' k" := (bind m (fun x => k))
  (at level 10, x name, m at level 100, k at level 200) : py_scope.
Local Open Scope py_scope.

(** ** The ledger store *)

(** A row of table [codes]; the key is column [code]. *)
Record code_row : Type := mk_code {
  max_videos : Z;
  code_is_admin : bool;
  is_used : bool;
  created_at : Z
}.

(** A row of table [users]; the key is column [username]. *)
Record user_row : Type := mk_user {
  user_code : string;
  videos_used : Z;
  last_used : Z
}.

Record database : Type := mk_db {
  codes : gmap string code_row;
  users : gmap string user_row
}.

(** The process as the ledger sees it: the committed contents of the
    database file, the number of [sqlite3] calls issued so far and the number
    of random draws consumed so far. *)
Record world : Type := mk_world {
  db : database;
  issued : nat;
  drawn : nat
}.

Definition set_db (d : database) (w : world) : world :=
  {| db := d; issued := issued w; drawn := drawn w |}.

(** Code outside a [with sqlite3.connect(...)] block runs over [world];
    code inside one runs over the connection's view of the tables, which
    holds its uncommitted writes, and the [world]. *)
Definition io (A : Type) : Type := M world A.
Definition tx (A : Type) : Type := M (database * world) A.

Definition no_fault : nat -> option string := fun _ => None.

Definition ADMIN_USERNAME : string := "Mani".
Definition ADMIN_CODE : string := "ADMIN_MASTER".

(** The four policy rejections of [validate_user], by their messages. *)
Definition InvalidCode : string := "Invalid code".
Definition CodeMismatch : string :=
  "Username already registered with a different code".
Definition LimitExceeded : string := "Video limit exceeded".
Definition CodeAlreadyConsumed : string := "This code has already been used".

(** The row of a code once [is_used] is set. *)
Definition mark_used (c : code_row) : code_row :=
  mk_code (max_videos c) (code_is_admin c) true (created_at c).

(** The row of a user once one more video is counted at time [now]. *)
Definition bump_usage (now : Z) (u : user_row) : user_row :=
  mk_user (user_code u) (videos_used u + 1) now.

(** [string.ascii_uppercase + string.digits] *)
Definition alphabet : list ascii :=
  String.list_ascii_of_string "ABCDEFGHIJKLMNOPQRSTUVWXYZ0123456789".

Section AuthManager.

(** [fault n = Some msg]: the [n]-th sqlite3 call raises an error whose
    text is [msg]. *)
Variable fault : nat -> option string.
(** [draw n]: the [n]-th random number, read as an index into the
    population. *)
Variable draw : nat -> nat.

(** One call into sqlite3 ([connect], [execute], [commit]). *)
Definition sqlite_call (w : world) : result unit * world :=
  let w' := {| db := db w; issued := S (issued w); drawn := drawn w |} in
  match fault (issued w) with
  | Some msg => (Raise (OperationalError msg), w')
  | None => (Return tt, w')
  end.

(** A statement executed on the open connection: it may raise, else it
    reads or rewrites the connection's view. *)
Definition execute {A : Type}
    (stmt : database -> result A * database) : tx A :=
  fun '(view, w) =>
    match sqlite_call w with
    | (Return _, w') => let '(r, view') := stmt view in (r, (view', w'))
    | (Raise e, w') => (Raise e, (view, w'))
    | (Hang, w') => (Hang, (view, w'))
    end.

(** [conn.commit()] *)
Definition commit : tx unit :=
  fun '(view, w) =>
    match sqlite_call w with
    | (Return _, w') => (Return tt, (view, set_db view w'))
    | (Raise e, w') => (Raise e, (view, w'))
    | (Hang, w') => (Hang, (view, w'))
    end.

(** [with sqlite3.connect(self.db_path) as conn: body].  Leaving the block
    normally commits what is pending; leaving it through an exception rolls
    the pending writes back and lets the exception through.  Every method
    of the class that writes calls [conn.commit()] itself before it leaves
    the block, so the commit on leaving finds nothing pending and is not
    counted as a call that may raise. *)
Definition with_connection {A : Type} (body : tx A) : io A :=
  fun w =>
    match sqlite_call w with
    | (Return _, w1) =>
        match body (db w1, w1) with
        | (Return a, (view, w2)) => (Return a, set_db view w2)
        | (Raise e, (_, w2)) => (Raise e, w2)
        | (Hang, (_, w2)) => (Hang, w2)
        end
    | (Raise e, w1) => (Raise e, w1)
    | (Hang, w1) => (Hang, w1)
    end.

(** Code that does not use the open connection, called inside its block. *)
Definition outside {A : Type} (m : io A) : tx A :=
  fun '(view, w) => let '(r, w') := m w in (r, (view, w')).

(** *** The SQL statements of the class *)

(** [CREATE TABLE IF NOT EXISTS ...]: the tables of this model always
    exist. *)
Definition create_table_if_not_exists : tx unit :=
  execute (fun view => (Return tt, view)).

(** [SELECT max_videos, is_admin, is_used FROM codes WHERE code = ?] *)
Definition select_code (code : string) : tx (option code_row) :=
  execute (fun view => (Return (codes view !! code), view)).

(** [SELECT code, videos_used FROM users WHERE username = ?] *)
Definition select_user (username : string) : tx (option user_row) :=
  execute (fun view => (Return (users view !! username), view)).

(** [SELECT 1 FROM codes WHERE code = ?], then [cursor.fetchone()] read as
    a truth value. *)
Definition select_code_exists (code : string) : tx bool :=
  execute (fun view =>
    (Return (bool_decide (is_Some (codes view !! code))), view)).

(** [INSERT INTO users (username, code, videos_used, last_used)
     VALUES (?, ?, 0, ?)] *)
Definition insert_user (username code : string) (now : Z) : tx unit :=
  execute (fun view =>
    match users view !! username with
    | Some _ =>
        (Raise (IntegrityError "UNIQUE constraint failed: users.username"), view)
    | None =>
        (Return tt,
         {| codes := codes view;
            users := <[username := mk_user code 0 now]> (users view) |})
    end).

(** [INSERT OR IGNORE INTO users ...] *)
Definition insert_or_ignore_user (username code : string) (now : Z) : tx unit :=
  execute (fun view =>
    match users view !! username with
    | Some _ => (Return tt, view)
    | None =>
        (Return tt,
         {| codes := codes view;
            users := <[username := mk_user code 0 now]> (users view) |})
    end).

(** [INSERT INTO codes (code, max_videos, is_admin) VALUES (?, ?, ?)];
    [is_used] takes its default 0 and [created_at] the current time. *)
Definition insert_code (code : string) (max : Z) (admin : bool) (now : Z)
    : tx unit :=
  execute (fun view =>
    match codes view !! code with
    | Some _ =>
        (Raise (IntegrityError "UNIQUE constraint failed: codes.code"), view)
    | None =>
        (Return tt,
         {| codes := <[code := mk_code max admin false now]> (codes view);
            users := users view |})
    end).

(** [INSERT OR IGNORE INTO codes ...] *)
Definition insert_or_ignore_code (code : string) (max : Z) (admin : bool)
    (now : Z) : tx unit :=
  execute (fun view =>
    match codes view !! code with
    | Some _ => (Return tt, view)
    | None =>
        (Return tt,
         {| codes := <[code := mk_code max admin false now]> (codes view);
            users := users view |})
    end).

(** [UPDATE codes SET is_used = 1 WHERE code = ?] *)
Definition mark_code_used (code : string) : tx unit :=
  execute (fun view =>
    (Return tt,
     {| codes := alter mark_used code (codes view);
        users := users view |})).

(** [UPDATE users SET videos_used = videos_used + 1,
     last_used = CURRENT_TIMESTAMP WHERE username = ?] *)
Definition update_usage (username : string) (now : Z) : tx unit :=
  execute (fun view =>
    (Return tt,
     {| codes := codes view;
        users := alter (bump_usage now) username (users view) |})).

(** [SELECT c.is_admin FROM users u JOIN codes c ON u.code = c.code
     WHERE u.username = ?] *)
Definition select_is_admin (username : string) : tx (option bool) :=
  execute (fun view =>
    (Return
       (match users view !! username with
        | Some u =>
            match codes view !! user_code u with
            | Some c => Some (code_is_admin c)
            | None => None
            end
        | None => None
        end), view)).

(** [DELETE FROM users WHERE code = ?] *)
Definition delete_users_of (code : string) : tx unit :=
  execute (fun view =>
    (Return tt,
     {| codes := codes view;
        users := filter (fun kv => user_code kv.2 <> code) (users view) |})).

(** [DELETE FROM codes WHERE code = ?] *)
Definition delete_code_row (code : string) : tx unit :=
  execute (fun view =>
    (Return tt,
     {| codes := delete code (codes view); users := users view |})).

(** *** The methods of [AuthManager] *)

(** [init_db]: the tables exist from here on; the default admin code and
    the default admin user are inserted unless present.  A fault is logged
    and raised again. *)
Definition init_db (now : Z) : io unit :=
  with_connection
    (let* _ := create_table_if_not_exists in
     let* _ := create_table_if_not_exists in
     let* _ := insert_or_ignore_code ADMIN_CODE (-1) true now in
     let* _ := insert_or_ignore_user ADMIN_USERNAME ADMIN_CODE now in
     let* _ := commit in
     ret tt).

(** [''.join(random.choices(string.ascii_uppercase + string.digits, k=n))] *)
Fixpoint random_chars (n : nat) (p : nat) : string :=
  match n with
  | O => EmptyString
  | S n' =>
      String (nth (draw p mod length alphabet) alphabet "A"%char)
             (random_chars n' (S p))
  end.

Definition random_choices (k : nat) : io string :=
  fun w =>
    (Return (random_chars k (drawn w)),
     {| db := db w; issued := issued w; drawn := drawn w + k |}).

(** [generate_unique_code]: [fuel] bounds the iterations of [while True]
    that are observed. *)
Fixpoint generate_unique_code (fuel : nat) (prefix : string) : io string :=
  match fuel with
  | O => hang
  | S fuel' =>
      let* random_part := random_choices 6 in
      let code := prefix +:+ "_" +:+ random_part in
      let* found := with_connection (select_code_exists code) in
      if found : bool then generate_unique_code fuel' prefix else ret code
  end.

(** The body of the [for _ in range(num_codes)] loop of
    [create_bulk_codes], [n] iterations to go. *)
Fixpoint bulk_loop (fuel : nat) (now : Z) (max : Z) (prefix : string)
    (n : nat) (created_codes : list string) : tx (list string) :=
  match n with
  | O => ret created_codes
  | S n' =>
      let* code := outside (generate_unique_code fuel prefix) in
      let* _ := insert_code code max false now in
      bulk_loop fuel now max prefix n' (created_codes ++ [code])
  end.

Definition create_bulk_codes (fuel : nat) (now : Z) (num_codes : Z)
    (max : Z) (prefix : string) : io (list string) :=
  try_except
    (with_connection
       (let* created_codes :=
          bulk_loop fuel now max prefix (Z.to_nat num_codes) [] in
        let* _ := commit in
        ret created_codes))
    (fun _ => ret []).

(** [validate_user]: the result is [(is_valid, message, remaining_videos)]. *)
Definition validate_user (now : Z) (username code : string)
    : io (bool * string * Z) :=
  try_except
    (with_connection
       (let* code_info := select_code code in
        match code_info with
        | None => ret (false, InvalidCode, 0%Z)
        | Some ci =>
            let* user_info := select_user username in
            match user_info with
            | Some ui =>
                if decide (user_code ui <> code) then
                  ret (false, CodeMismatch, 0%Z)
                else if negb (code_is_admin ci)
                        && (max_videos ci <=? videos_used ui)%Z then
                  ret (false, LimitExceeded, 0%Z)
                else
                  ret (true, "Welcome back!",
                       if (0 <? max_videos ci)%Z
                       then (max_videos ci - videos_used ui)%Z
                       else (-1)%Z)
            | None =>
                if negb (code_is_admin ci) && is_used ci then
                  ret (false, CodeAlreadyConsumed, 0%Z)
                else
                  let* _ := insert_user username code now in
                  let* _ := (if negb (code_is_admin ci)
                       then mark_code_used code else ret tt) in
                  let* _ := commit in
                  ret (true, "Welcome new user!",
                       if (0 <? max_videos ci)%Z
                       then max_videos ci else (-1)%Z)
            end
        end))
    (fun e => ret (false, "Authentication error: " +:+ str e, 0%Z)).

Definition increment_usage (now : Z) (username : string) : io bool :=
  try_except
    (with_connection
       (let* _ := update_usage username now in
        let* _ := commit in
        ret true))
    (fun _ => ret false).

Definition is_admin (username : string) : io bool :=
  try_except
    (with_connection
       (let* result := select_is_admin username in
        ret (match result with Some b => b | None => false end)))
    (fun _ => ret false).

Definition create_code (fuel : nat) (now : Z) (prefix : string) (max : Z)
    (admin : bool) : io (bool * string) :=
  try_except
    (let* code := generate_unique_code fuel prefix in
     with_connection
       (let* _ := insert_code code max admin now in
        let* _ := commit in
        ret (true, code)))
    (fun _ => ret (false, "")).

Definition delete_code (code : string) : io bool :=
  try_except
    (with_connection
       (let* _ := delete_users_of code in
        let* _ := delete_code_row code in
        let* _ := commit in
        ret true))
    (fun _ => ret false).

End AuthManager.

(** ** The application: session state and the single-flight orchestrator *)

Inductive level : Type := INFO | WARNING | ERROR | SUCCESS.

(** What a run leaves behind for an observer: records of [logger], messages
    shown through [st.info], [st.warning], [st.error] and [st.success], and
    the calls into the processing pipeline. *)
Inductive source : Type :=
  | FromUrl (url : string)        (* bot.process_video_from_url *)
  | FromFile (name : string).     (* bot.process_video_file *)

Inductive event : Type :=
  | Logged (l : level) (msg : string)
  | Shown (l : level) (msg : string)
  | StageCall (src : source) (at_time : Z).

(** How a call into the pipeline ends: it returns, it raises an [Exception],
    or it is left through an exception that is no [Exception] (a
    cancellation, an interrupt, a script rerun). *)
Inductive ending : Type :=
  | Completed
  | Raised (msg : string)
  | Interrupted.

(** An entry of the working directory. *)
Record entry : Type := mk_entry {
  name : string;
  is_dir : bool;
  st_mtime : Z
}.

(** [st.session_state]; [processing_start_time = None] when the attribute
    is absent, [video_url = None] when the key is absent or empty. *)
Record session_state : Type := mk_session {
  authenticated : bool;
  username : option string;
  session_is_admin : bool;
  remaining_videos : Z;
  is_processing : bool;
  processing_start_time : option Z;
  video_url : option string;
  progress : Z;
  status : string
}.

(** What a call into the pipeline does, as far as this state can tell: how
    it ends, how long it takes, and the session state and the working
    directory it leaves. *)
Record stage_run : Type := mk_run {
  ending_of : ending;
  elapsed : Z;
  session_after : session_state;
  files_after : list entry
}.

Record app : Type := mk_app {
  session : session_state;
  ledger : world;
  clock : Z;
  files : list entry;
  trace : list event
}.

(** How a call of the application's own code ends. *)
Inductive exit : Type :=
  | Normal        (* the call returned *)
  | Propagated.   (* an exception left the call *)

Definition seconds (n : Z) : Z := (n * 1000000)%Z.

Definition with_session (f : session_state -> session_state) (a : app) : app :=
  {| session := f (session a); ledger := ledger a; clock := clock a;
     files := files a; trace := trace a |}.

Definition emit (e : event) (a : app) : app :=
  {| session := session a; ledger := ledger a; clock := clock a;
     files := files a; trace := trace a ++ [e] |}.

Definition set_is_processing (b : bool) (s : session_state) : session_state :=
  {| authenticated := authenticated s; username := username s;
     session_is_admin := session_is_admin s;
     remaining_videos := remaining_videos s;
     is_processing := b;
     processing_start_time := processing_start_time s;
     video_url := video_url s; progress := progress s; status := status s |}.

Definition set_processing_start_time (t : option Z) (s : session_state)
    : session_state :=
  {| authenticated := authenticated s; username := username s;
     session_is_admin := session_is_admin s;
     remaining_videos := remaining_videos s;
     is_processing := is_processing s;
     processing_start_time := t;
     video_url := video_url s; progress := progress s; status := status s |}.

Definition set_progress_status (p : Z) (st : string) (s : session_state)
    : session_state :=
  {| authenticated := authenticated s; username := username s;
     session_is_admin := session_is_admin s;
     remaining_videos := remaining_videos s;
     is_processing := is_processing s;
     processing_start_time := processing_start_time s;
     video_url := video_url s; progress := p; status := st |}.

Definition set_remaining_videos (r : Z) (s : session_state) : session_state :=
  {| authenticated := authenticated s; username := username s;
     session_is_admin := session_is_admin s;
     remaining_videos := r;
     is_processing := is_processing s;
     processing_start_time := processing_start_time s;
     video_url := video_url s; progress := progress s; status := status s |}.

Definition busy_message : string :=
  "⚠️ Already processing a video. Please wait.".
Definition busy_message_url : string :=
  "⚠️ Already processing a video. Please wait or refresh the page if stuck.".
Definition stuck_message : string := "Reset stuck processing state".

(** What a run of [process_video] reports before it calls the pipeline. *)
Definition job_started_events : list event :=
  [Logged INFO "Initializing StreamlitUpdate";
   Logged INFO "Initializing StreamlitContext";
   Shown INFO "🎬 Starting video processing..."].

(** The input [process_video] works on: the URL of the session when there is
    one, else the uploaded file, else nothing. *)
Definition job_source (s : session_state) (uploaded_file : option string)
    : option source :=
  match video_url s, uploaded_file with
  | Some url, _ => Some (FromUrl url)
  | None, Some file => Some (FromFile file)
  | None, None => None
  end.

(** The session state of a job that [process_video] starts: the start time
    is the reading of the clock and the flag is set. *)
Definition job_session (a : app) : session_state :=
  set_is_processing true
    (set_processing_start_time (Some (clock a)) (session a)).

(** The admission rule of [process_video]: no job is running, or the running
    one has no start time, or it started more than 300 seconds ago. *)
Definition admissible (a : app) : bool :=
  negb (is_processing (session a))
  || match processing_start_time (session a) with
     | Some started => (seconds 300 <? clock a - started)%Z
     | None => true
     end.

(** A directory of the working directory that [cleanup_memory] hands to
    [shutil.rmtree]: its name matches [temp_*] or [output_*] and it was last
    modified more than one hour before [current_time]. *)
Definition swept (current_time : Z) (e : entry) : bool :=
  (String.prefix "temp_" (name e) || String.prefix "output_" (name e))
  && is_dir e
  && (seconds 3600 <? current_time - st_mtime e)%Z.

Section Orchestrator.

Variable fault : nat -> option string.
(** The pipeline behind [bot], which is not part of these files: how the
    call for [src] runs when started at the given time, on the given session
    state and working directory. *)
Variable pipeline : source -> Z -> session_state -> list entry -> stage_run.
(** The file system behind [shutil.rmtree(path, ignore_errors=True)]: what a
    call at the given time leaves of the entry.  It is [None] when the tree
    is deleted, and the entry that stays (its modification time may have
    changed) when the call deletes only part of the tree or nothing: a
    symbolic link to a directory, which [rmtree] refuses, or a tree that
    cannot be deleted.  No error leaves the call. *)
Variable rmtree : Z -> entry -> option entry.

(** One step of the loop of [cleanup_memory]: a directory that passes the
    test is handed to [rmtree], any other entry is not touched. *)
Definition sweep (current_time : Z) (e : entry) : option entry :=
  if swept current_time e then rmtree current_time e else Some e.

(** [cleanup_memory(force)]: the garbage collection it may trigger leaves no
    trace in this state. *)
Definition cleanup_memory (force : bool) (a : app) : app :=
  emit (Logged INFO "Cleanup completed successfully")
    {| session := session a; ledger := ledger a; clock := clock a;
       files := omap (sweep (clock a)) (files a);
       trace := trace a |}.

(** [await bot.process_video_...(...)]: the clock advances by the time the
    call takes and the working directory is what the call leaves. *)
Definition run_stage (src : source) (a : app) : ending * app :=
  let r := pipeline src (clock a) (session a) (files a) in
  (ending_of r,
   {| session := session_after r; ledger := ledger a;
      clock := (clock a + elapsed r)%Z;
      files := files_after r;
      trace := trace a ++ [StageCall src (clock a)] |}).

(** The [finally] block of [process_video]. *)
Definition process_video_finally (a : app) : app :=
  cleanup_memory true
    (with_session
       (fun s => set_processing_start_time None (set_is_processing false s))
       a).

(** The [try] block of [process_video] with its [except Exception]. *)
Definition process_video_try (uploaded_file : option string) (a : app)
    : exit * app :=
  let a := with_session (fun _ => job_session a) a in
  let a := emit (Logged INFO "Initializing StreamlitUpdate") a in
  let a := emit (Logged INFO "Initializing StreamlitContext") a in
  let a := emit (Shown INFO "🎬 Starting video processing...") a in
  let '(e, a) :=
    match job_source (session a) uploaded_file with
    | Some (FromUrl url) =>
        let a := emit (Logged INFO ("Processing video URL: " +:+ url)) a in
        let a := emit (Shown INFO "📥 Downloading video from URL...") a in
        run_stage (FromUrl url) a
    | Some (FromFile file) =>
        let a := emit (Logged INFO ("Processing uploaded file: " +:+ file)) a in
        let a := emit (Shown INFO "📥 Processing uploaded video...") a in
        run_stage (FromFile file) a
    | None => (Completed, a)
    end in
  match e with
  | Completed => (Normal, emit (Shown SUCCESS "✅ Processing complete!") a)
  | Raised msg =>
      (Normal,
       emit (Shown ERROR ("❌ Error processing video: " +:+ msg))
         (emit (Logged ERROR ("Error processing video: " +:+ msg)) a))
  | Interrupted => (Propagated, a)
  end.

(** [process_video]: the admission check, then the run. *)
Definition process_video (uploaded_file : option string) (a : app)
    : exit * app :=
  let run (a : app) : exit * app :=
    let '(x, a) := process_video_try uploaded_file a in
    (x, process_video_finally a) in
  if is_processing (session a) then
    match processing_start_time (session a) with
    | Some started =>
        if (seconds 300 <? clock a - started)%Z then
          run (emit (Logged WARNING stuck_message)
                 (with_session (set_is_processing false) a))
        else
          (Normal, emit (Shown WARNING busy_message) a)
    | None => run (with_session (set_is_processing false) a)
    end
  else run a.

(** The handler of button "Process Video" of the upload tab. *)
Definition on_process_upload (uploaded_file : string) (a : app) : exit * app :=
  if negb (is_processing (session a)) then
    let a := with_session
               (fun s => set_progress_status 0 "Starting video processing..."
                           (set_is_processing true s)) a in
    process_video (Some uploaded_file) a
  else (Normal, emit (Shown WARNING busy_message) a).

(** The handler of button "Process URL" of the URL tab, for a URL that
    starts with [http://] or [https://]. *)
Definition on_process_url (uploaded_file : option string) (a : app)
    : exit * app :=
  let a :=
    match is_processing (session a), processing_start_time (session a) with
    | true, Some started =>
        if (seconds 300 <? clock a - started)%Z then
          emit (Logged WARNING stuck_message)
            (with_session (set_is_processing false) a)
        else a
    | _, _ => a
    end in
  if negb (is_processing (session a)) then
    let a := with_session
               (set_progress_status 0 "Starting video processing...") a in
    process_video uploaded_file a
  else (Normal, emit (Shown WARNING busy_message_url) a).

(** [login()], called by the login form once [validate_user] accepted. *)
Definition login (form_username : string) (a : app) : app :=
  let '(r, w) := is_admin fault form_username (ledger a) in
  {| session :=
       {| authenticated := true; username := Some form_username;
          session_is_admin := match r with Return b => b | _ => false end;
          remaining_videos := remaining_videos (session a);
          is_processing := is_processing (session a);
          processing_start_time := processing_start_time (session a);
          video_url := video_url (session a);
          progress := progress (session a); status := status (session a) |};
     ledger := w; clock := clock a; files := files a; trace := trace a |}.

(** The login form, submitted. *)
Definition submit_login (form_username form_code : string) (a : app) : app :=
  let '(r, w) := validate_user fault (clock a) form_username form_code
                   (ledger a) in
  let a := {| session := session a; ledger := w; clock := clock a;
              files := files a; trace := trace a |} in
  match r with
  | Return (true, message, remaining) =>
      login form_username
        (emit (Shown SUCCESS message)
           (with_session (set_remaining_videos remaining) a))
  | Return (false, message, _) => emit (Shown ERROR message) a
  | _ => a
  end.

Definition check_video_limit (a : app) : bool * app :=
  if negb (session_is_admin (session a))
     && (remaining_videos (session a) =? 0)%Z then
    (false,
     emit (Shown ERROR
             "You have reached your video limit. Please contact the administrator for a new code.")
          a)
  else (true, a).

(** [auth_manager.increment_usage(st.session_state.username)]; before a
    login the username is [None], which sqlite3 binds as [NULL], and
    [username = NULL] holds of no row. *)
Definition increment_usage_of (username : option string) (now : Z) : io bool :=
  match username with
  | Some u => increment_usage fault now u
  | None =>
      try_except
        (with_connection fault
           (let* _ := execute fault (fun view => (Return tt, view)) in
            let* _ := commit fault in
            ret true))
        (fun _ => ret false)
  end.

Definition update_video_usage (a : app) : app :=
  if negb (session_is_admin (session a)) then
    let '(r, w) :=
      increment_usage_of (username (session a)) (clock a) (ledger a) in
    let a := {| session := session a; ledger := w; clock := clock a;
                files := files a; trace := trace a |} in
    match r with
    | Return true =>
        with_session
          (fun s => set_remaining_videos (remaining_videos s - 1)%Z s) a
    | _ => emit (Shown ERROR "Failed to update video usage") a
    end
  else a.

End Orchestrator.

(** ** Notions used in the statements *)

(** One [increment_usage] call per reading of the clock in [ts], on a store
    that raises no error: the results of the calls and the final state. *)
Fixpoint consume (ts : list Z) (username : string) (w : world)
    : list (result bool) * world :=
  match ts with
  | [] => ([], w)
  | t :: ts' =>
      let '(r, w') := increment_usage no_fault t username w in
      let '(rs, w'') := consume ts' username w' in
      (r :: rs, w'')
  end.

(** The code [generate_unique_code] tries when [p] draws were consumed. *)
Definition candidate (draw : nat -> nat) (prefix : string) (p : nat) : string :=
  prefix +:+ "_" +:+ random_chars draw 6 p.

(** [code] reads [prefix], an underscore, then six characters, each an
    uppercase letter or a digit. *)
Definition well_formed_code (prefix code : string) : Prop :=
  exists part, code = prefix +:+ "_" +:+ part /\
    String.length part = 6 /\
    Forall (fun ch => In ch alphabet) (String.list_ascii_of_string part).

(** ** Concrete states and inputs, for the examples *)

(** The ledger of the specification's scenario once [bob] is bound to
    [MK_ABC123], a code for two videos. *)
Definition ledger_bob : world :=
  mk_world
    (mk_db {[ "MK_ABC123" := mk_code 2 false true 0 ]}
           {[ "bob" := mk_user "MK_ABC123" 0 0 ]})
    0 0.

(** Two single-use codes, each bound to its username. *)
Definition ledger_alice : world :=
  mk_world
    (mk_db {[ "MK_AAAAAA" := mk_code 1 false true 0;
              "MK_BBBBBB" := mk_code 1 false true 0 ]}
           {[ "alice" := mk_user "MK_AAAAAA" 0 1;
              "carol" := mk_user "MK_BBBBBB" 0 2 ]})
    0 0.

(** A fresh non-admin code whose limit is 0. *)
Definition ledger_zero : world :=
  mk_world (mk_db {[ "MK_ZERO00" := mk_code 0 false false 0 ]} ∅) 0 0.

(** A ledger in which the code [MK_AAAAAA] is taken. *)
Definition ledger_taken : world :=
  mk_world (mk_db {[ "MK_AAAAAA" := mk_code 5 false false 0 ]} ∅) 0 0.

(** Draws that give the letter [A] for the first [n] draws and [B] after. *)
Definition draw_A_then_B (n : nat) (i : nat) : nat :=
  if i <? n then 0 else 1.

(** The application when the script starts on an empty database file:
    [AuthManager()] has run [init_db], nobody is logged in, nothing is being
    processed. *)
Definition app_start : app :=
  {| session :=
       {| authenticated := false; username := None;
          session_is_admin := false; remaining_videos := 0;
          is_processing := false; processing_start_time := None;
          video_url := None; progress := 0; status := "" |};
     ledger := snd (init_db no_fault 0 (mk_world (mk_db ∅ ∅) 0 0));
     clock := 0; files := []; trace := [] |}.

(** A session that started a job one second after the script and is asked
    again 400 seconds later, with an old temporary directory lying around. *)
Definition app_running : app :=
  {| session :=
       {| authenticated := true; username := Some "bob";
          session_is_admin := false; remaining_videos := 2;
          is_processing := true;
          processing_start_time := Some 1000000%Z;
          video_url := Some "https://example.com/video.mp4";
          progress := 0; status := "" |};
     ledger := ledger_bob;
     clock := seconds 401;
     files := [mk_entry "temp_old" true 0; mk_entry "notes.txt" false 0];
     trace := [] |}.

(** A pipeline that takes one minute, leaves a directory of its own behind
    and returns. *)
Definition pipeline_ok (src : source) (start : Z) (s : session_state)
    (fs : list entry) : stage_run :=
  {| ending_of := Completed;
     elapsed := seconds 60;
     session_after := s;
     files_after := mk_entry "output_job" true start :: fs |}.

(** A pipeline that raises after ten seconds, leaving a directory behind. *)
Definition pipeline_fails (src : source) (start : Z) (s : session_state)
    (fs : list entry) : stage_run :=
  {| ending_of := Raised "Download failed";
     elapsed := seconds 10;
     session_after := set_progress_status 50 "Downloading" s;
     files_after := mk_entry "temp_job" true start :: fs |}.

(** A file system in which every removal succeeds. *)
Definition rmtree_ok (now : Z) (e : entry) : option entry := None.

(** A file system in which [temp_old] is a symbolic link to a directory,
    which [shutil.rmtree] refuses, and every other removal succeeds. *)
Definition rmtree_refuses_link (now : Z) (e : entry) : option entry :=
  if String.eqb (name e) "temp_old" then Some e else None.

(** ** The reports of [AuthManager] *)

(** A row of [get_all_codes]: the columns of the code, the number of users
    bound to it and the sum of their counts, [None] for the [NULL] that
    [SUM] gives over no user. *)
Record code_report : Type := mk_code_report {
  report_code : string;
  report_max_videos : Z;
  report_is_admin : bool;
  report_is_used : bool;
  user_count : nat;
  total_videos_used : option Z;
  report_created_at : Z
}.

(** A row of [get_user_stats]. *)
Record user_report : Type := mk_user_report {
  stat_username : string;
  stat_code : string;
  stat_videos_used : Z;
  stat_max_videos : Z;
  stat_last_used : Z
}.

(** The users bound to [code]. *)
Definition users_of (code : string) (us : gmap string user_row)
    : gmap string user_row :=
  filter (fun kv => user_code kv.2 = code) us.

Definition sum_videos_used (us : gmap string user_row) : Z :=
  foldr (fun kv acc => (videos_used kv.2 + acc)%Z) 0%Z (map_to_list us).

(** The group of code [code] in
    [codes c LEFT JOIN users u ON c.code = u.code GROUP BY c.code]. *)
Definition code_group (us : gmap string user_row) (kv : string * code_row)
    : code_report :=
  let bound := users_of kv.1 us in
  {| report_code := kv.1;
     report_max_videos := max_videos kv.2;
     report_is_admin := code_is_admin kv.2;
     report_is_used := is_used kv.2;
     user_count := size bound;
     total_videos_used :=
       if decide (size bound = 0) then None else Some (sum_videos_used bound);
     report_created_at := created_at kv.2 |}.

(** The row of user [kv] in [users u JOIN codes c ON u.code = c.code], when
    its code is stored and passes the [WHERE u.code = ?] of [selected]. *)
Definition user_join (cs : gmap string code_row) (selected : option string)
    (kv : string * user_row) : option user_report :=
  match cs !! user_code kv.2 with
  | Some ci =>
      let row := {| stat_username := kv.1;
                    stat_code := user_code kv.2;
                    stat_videos_used := videos_used kv.2;
                    stat_max_videos := max_videos ci;
                    stat_last_used := last_used kv.2 |} in
      match selected with
      | Some c => if decide (user_code kv.2 = c) then Some row else None
      | None => Some row
      end
  | None => None
  end.

Section Reports.

Variable fault : nat -> option string.

(** [get_all_codes]: SQL leaves the order of the rows open; here they come
    in the order in which the table of codes is enumerated. *)
Definition get_all_codes : io (list code_report) :=
  try_except
    (with_connection fault
       (execute fault (fun view =>
          (Return (map (code_group (users view)) (map_to_list (codes view))),
           view))))
    (fun _ => ret []).

(** [get_user_stats(code)]: [if code:] holds of a string that is not
    empty. *)
Definition get_user_stats (code : option string) : io (list user_report) :=
  try_except
    (with_connection fault
       (let params :=
          match code with
          | Some c => if decide (c = "") then None else Some c
          | None => None
          end in
        execute fault (fun view =>
          (Return (omap (user_join (codes view) params)
                        (map_to_list (users view))),
           view))))
    (fun _ => ret []).

End Reports.

(** ** Calls on one [AuthManager] and what they may change *)

Inductive call : Type :=
  | ValidateUser (now : Z) (username code : string)
  | IncrementUsage (now : Z) (username : string)
  | IsAdmin (username : string)
  | CreateCode (fuel : nat) (now : Z) (prefix : string) (max : Z) (admin : bool)
  | CreateBulkCodes (fuel : nat) (now : Z) (num_codes max : Z) (prefix : string)
  | DeleteCode (code : string)
  | GetAllCodes
  | GetUserStats (code : option string).

(** The state after a call, its answer dropped. *)
Definition perform (fault : nat -> option string) (draw : nat -> nat)
    (c : call) (w : world) : world :=
  match c with
  | ValidateUser now username code =>
      snd (validate_user fault now username code w)
  | IncrementUsage now username => snd (increment_usage fault now username w)
  | IsAdmin username => snd (is_admin fault username w)
  | CreateCode fuel now prefix max admin =>
      snd (create_code fault draw fuel now prefix max admin w)
  | CreateBulkCodes fuel now num_codes max prefix =>
      snd (create_bulk_codes fault draw fuel now num_codes max prefix w)
  | DeleteCode code => snd (delete_code fault code w)
  | GetAllCodes => snd (get_all_codes fault w)
  | GetUserStats code => snd (get_user_stats fault code w)
  end.

Definition run_calls (fault : nat -> option string) (draw : nat -> nat)
    (cs : list call) (w : world) : world :=
  foldl (fun w c => perform fault draw c w) w cs.

(** The ways in which the tables change. *)
Inductive change (d : database) : database -> Prop :=
  | change_nothing : change d d
  | change_register (username code : string) (ci : code_row) (now : Z) :
      users d !! username = None ->
      codes d !! code = Some ci ->
      negb (code_is_admin ci) && is_used ci = false ->
      change d
        {| codes := if code_is_admin ci then codes d
                    else alter mark_used code (codes d);
           users := <[username := mk_user code 0 now]> (users d) |}
  | change_usage (username : string) (now : Z) :
      change d
        {| codes := codes d;
           users := alter (bump_usage now) username (users d) |}
  | change_issue (d' : database) (new : list string) (max : Z) (admin : bool)
      (now : Z) :
      (forall c, c ∈ new -> codes d !! c = None) ->
      (forall c, codes d' !! c =
         if decide (c ∈ new) then Some (mk_code max admin false now)
         else codes d !! c) ->
      users d' = users d ->
      change d d'
  | change_delete (code : string) :
      change d
        {| codes := delete code (codes d);
           users := filter (fun kv => user_code kv.2 <> code) (users d) |}.

(** Every user is bound to a stored code. *)
Definition bound_to_stored_codes (d : database) : Prop :=
  forall u ui, users d !! u = Some ui -> is_Some (codes d !! user_code ui).

(** No admin code is marked used. *)
Definition admin_codes_unused (d : database) : Prop :=
  forall c ci, codes d !! c = Some ci -> code_is_admin ci = true ->
    is_used ci = false.

(** A non-admin code has at most one user, and none while it is not marked
    used. *)
Definition single_use (d : database) : Prop :=
  forall c ci, codes d !! c = Some ci -> code_is_admin ci = false ->
    (forall u1 u2 r1 r2,
       users d !! u1 = Some r1 -> users d !! u2 = Some r2 ->
       user_code r1 = c -> user_code r2 = c -> u1 = u2) /\
    (is_used ci = false ->
     forall u r, users d !! u = Some r -> user_code r <> c).

(** No count is negative. *)
Definition counts_not_negative (d : database) : Prop :=
  forall u ui, users d !! u = Some ui -> (0 <= videos_used ui)%Z.

(** The ledger right after [AuthManager()] on an empty database file. *)
Definition ledger_start (now : Z) : world :=
  snd (init_db no_fault now (mk_world (mk_db ∅ ∅) 0 0)).

(** A run used in the examples: a code is issued, two usernames try it,
    the first one consumes, the store fails once, the code is revoked. *)
Definition busy_day : list call :=
  [CreateCode 5 10 "MK" 1 false;
   ValidateUser 11 "bob" "MK_AHOV29";
   ValidateUser 12 "eve" "MK_AHOV29";
   IncrementUsage 13 "bob";
   IncrementUsage 14 "bob";
   GetAllCodes;
   DeleteCode "MK_AHOV29";
   IsAdmin "bob"].

(** ** The session: clicks and what the statements say of them *)




(** No job is running and no start time is recorded. *)
Definition idle (a : app) : Prop :=
  is_processing (session a) = false /\
  processing_start_time (session a) = None.





(** The count kept in the session is what the ledger leaves to the user
    who is logged in. *)
Definition in_sync (a : app) : Prop :=
  exists u ui ci,
    username (session a) = Some u /\
    users (db (ledger a)) !! u = Some ui /\
    codes (db (ledger a)) !! user_code ui = Some ci /\
    session_is_admin (session a) = code_is_admin ci /\
    remaining_videos (session a) = (max_videos ci - videos_used ui)%Z.

(** The application over a given ledger, nobody logged in. *)
Definition app_over (w : world) : app :=
  {| session := session app_start; ledger := w; clock := 20;
     files := []; trace := [] |}.

(** [bob] logged in with his code for two videos; [dave] logged in with the
    code whose limit is 0. *)
Definition app_bob : app :=
  submit_login no_fault "bob" "MK_ABC123" (app_over ledger_bob).
Definition app_dave : app :=
  submit_login no_fault "dave" "MK_ZERO00" (app_over ledger_zero).

(** An admin code for three videos, all three recorded for [amy]; and the
    session that [amy] gets from a login during which the store is locked
    for the first call of [is_admin], the fourth call into the store. *)
Definition ledger_amy : world :=
  mk_world
    (mk_db {[ "AD_TEAM01" := mk_code 3 true false 0 ]}
           {[ "amy" := mk_user "AD_TEAM01" 3 0 ]})
    0 0.
Definition app_amy : app :=
  submit_login
    (fun n => if n =? 3 then Some "database is locked" else None)
    "amy" "AD_TEAM01" (app_over ledger_amy).


(** ** Step 1 of the pipeline: the string functions of [VideoDownloader]

    A Python [str] is a sequence of Unicode code points; here it is a list
    of their numbers.  [text_of] reads a literal of ASCII characters. *)

Definition text_of (s : string) : list N :=
  map N_of_ascii (String.list_ascii_of_string s).

(** [s.startswith(p)] *)
Fixpoint starts_with (p s : list N) : bool :=
  match p, s with
  | [], _ => true
  | _ :: _, [] => false
  | x :: p', y :: s' => (x =? y)%N && starts_with p' s'
  end.

(** [p in s] *)
Fixpoint contains (p s : list N) : bool :=
  starts_with p s
  || match s with
     | [] => false
     | _ :: s' => contains p s'
     end.

(** [s.replace(old, new)], scanning from the left: [skip] characters of an
    occurrence that was just replaced are still to be passed over. *)
Fixpoint replace_from (old new : list N) (skip : nat) (s : list N) : list N :=
  match s with
  | [] => match old with [] => new | _ :: _ => [] end
  | c :: rest =>
      match skip with
      | S k => replace_from old new k rest
      | O =>
          if starts_with old s
          then new ++ replace_from old new (length old - 1) rest
          else c :: replace_from old new 0 rest
      end
  end.

Definition str_replace (old new s : list N) : list N :=
  replace_from old new 0 s.

Definition x_com : list N := text_of "x.com".
Definition twitter_com : list N := text_of "twitter.com".

(** [VideoDownloader._normalize_url] *)
Definition normalize_url (url : list N) : list N :=
  if contains x_com url then str_replace x_com twitter_com url else url.

Definition underscore : N := 95.
Definition dash : N := 45.

(** [s.lstrip(c)] and [s.strip(c)] for a single character [c]. *)
Fixpoint lstrip (c : N) (s : list N) : list N :=
  match s with
  | [] => []
  | x :: rest => if (x =? c)%N then lstrip c rest else s
  end.

Definition strip (c : N) (s : list N) : list N :=
  rev (lstrip c (rev (lstrip c s))).

Section SanitizeFilename.

(** The classes [\w] and [\s] of [re] on code points beyond ASCII, which
    come from the Unicode tables of the interpreter. *)
Variable unicode_word : N -> bool.
Variable unicode_space : N -> bool.

(** [\w]: a letter, a digit or the underscore. *)
Definition is_word (c : N) : bool :=
  if (c <? 128)%N then
    ((48 <=? c) && (c <=? 57) || (65 <=? c) && (c <=? 90)
     || (97 <=? c) && (c <=? 122) || (c =? underscore))%N
  else unicode_word c.

(** [\s]: for ASCII, the characters 9 to 13, 28 to 31 and the space. *)
Definition is_space (c : N) : bool :=
  if (c <? 128)%N then
    ((9 <=? c) && (c <=? 13) || (28 <=? c) && (c <=? 31) || (c =? 32))%N
  else unicode_space c.

(** The class [[-\s]]. *)
Definition is_separator (c : N) : bool := (c =? dash)%N || is_space c.

(** [re.sub(r'[^\w\s-]', '', title)] *)
Definition remove_special (title : list N) : list N :=
  List.filter (fun c => is_word c || is_space c || (c =? dash)%N) title.

(** [re.sub(r'[-\s]+', '_', title)]: [in_run] holds inside a run of
    separators whose underscore is already written. *)
Fixpoint collapse_separators (in_run : bool) (title : list N) : list N :=
  match title with
  | [] => []
  | c :: rest =>
      if is_separator c then
        if in_run then collapse_separators true rest
        else underscore :: collapse_separators true rest
      else c :: collapse_separators false rest
  end.

(** [VideoDownloader._sanitize_filename] *)
Definition sanitize_filename (title : list N) : list N :=
  let title := remove_special title in
  let title := collapse_separators false title in
  let title := match title with [] => text_of "video" | _ :: _ => title end in
  strip underscore (take 100 title).

(** What a sanitized name is made of: word characters that are no
    separators. *)
Definition plain (c : N) : Prop :=
  is_word c = true /\ is_separator c = false.

End SanitizeFilename.

(** Word and space classes that know ASCII only, for the examples. *)
Definition ascii_only (c : N) : bool := false.

(** * Properties *)

Ltac unfold_ledger :=
  unfold validate_user, increment_usage, is_admin, create_code, delete_code,
    init_db, try_except, with_connection, outside, bind, ret,
    select_code, select_user, select_code_exists, select_is_admin,
    insert_user, insert_code, insert_or_ignore_user, insert_or_ignore_code,
    mark_code_used, update_usage, delete_users_of, delete_code_row,
    execute, commit, sqlite_call, set_db, no_fault in *.

Lemma increment_usage_no_fault (now : Z) (username : string) (w : world) :
  increment_usage no_fault now username w =
  (Return true,
   {| db := {| codes := codes (db w);
               users := alter (bump_usage now) username (users (db w)) |};
      issued := issued w + 3; drawn := drawn w |}).
Proof.
  unfold_ledger. cbn. do 2 f_equal. lia.
Qed.

Lemma consume_spec (ts : list Z) (username : string) :
  forall (w : world) (ui : user_row),
  users (db w) !! username = Some ui ->
  let '(rs, w') := consume ts username w in
  rs = replicate (length ts) (Return true) /\
  codes (db w') = codes (db w) /\
  (exists t, users (db w') !! username =
     Some (mk_user (user_code ui) (videos_used ui + Z.of_nat (length ts)) t)) /\
  (forall other, other <> username ->
     users (db w') !! other = users (db w) !! other).
Proof.
  induction ts as [|t ts IH]; intros w ui Hu; cbn [consume].
  - repeat split; auto. exists (last_used ui). rewrite Hu. destruct ui; cbn.
    do 2 f_equal. lia.
  - rewrite increment_usage_no_fault.
    set (w1 := mk_world _ _ _).
    specialize (IH w1 (mk_user (user_code ui) (videos_used ui + 1) t)).
    destruct (consume ts username w1) as [rs w2].
    destruct IH as (Hrs & Hc & [t' Hu'] & Hother).
    { subst w1; cbn. rewrite lookup_alter_eq, Hu. reflexivity. }
    repeat split.
    + cbn. now rewrite Hrs.
    + rewrite Hc. reflexivity.
    + exists t'. rewrite Hu'. cbn. do 2 f_equal. lia.
    + intros other Hne. rewrite Hother by assumption. subst w1; cbn.
      now rewrite lookup_alter_ne.
Qed.

(** A known username on a store that raises no error. *)
Lemma validate_user_known (now : Z) (username code : string) (w : world)
    (ci : code_row) (ui : user_row) :
  codes (db w) !! code = Some ci ->
  users (db w) !! username = Some ui ->
  validate_user no_fault now username code w =
  (Return
     (if decide (user_code ui <> code) then (false, CodeMismatch, 0%Z)
      else if negb (code_is_admin ci) && (max_videos ci <=? videos_used ui)%Z
           then (false, LimitExceeded, 0%Z)
           else (true, "Welcome back!",
                 if (0 <? max_videos ci)%Z
                 then (max_videos ci - videos_used ui)%Z else (-1)%Z)),
   {| db := db w; issued := issued w + 3; drawn := drawn w |}).
Proof.
  intros Hc Hu. unfold_ledger. cbn. rewrite Hc. cbn. rewrite Hu. cbn.
  replace (issued w + 3) with (S (S (S (issued w)))) by lia.
  destruct (decide (user_code ui <> code)); [reflexivity|].
  destruct (negb (code_is_admin ci) && (max_videos ci <=? videos_used ui)%Z);
    reflexivity.
Qed.

(** C1. A username bound to a non-admin code whose limit is [N], on a store
    that raises no error: after any number of successful consumptions,
    validation is accepted with [N - consumed_count] remaining while the
    count is below [N], and rejected with [LimitExceeded] once the count has
    reached [N], as it has after exactly [N] consumptions from a count of 0;
    validation leaves the tables as they are. *)
Theorem validate_user_enforces_quota (w : world) (username code : string)
    (ci : code_row) (ui : user_row) (ts : list Z) (now : Z) :
  codes (db w) !! code = Some ci ->
  code_is_admin ci = false ->
  users (db w) !! username = Some ui ->
  user_code ui = code ->
  (0 <= videos_used ui)%Z ->
  let N := max_videos ci in
  let consumed_count := (videos_used ui + Z.of_nat (length ts))%Z in
  let '(rs, w1) := consume ts username w in
  let '(r, w2) := validate_user no_fault now username code w1 in
  rs = replicate (length ts) (Return true) /\
  db w2 = db w1 /\
  ((consumed_count < N)%Z ->
     r = Return (true, "Welcome back!", (N - consumed_count)%Z)) /\
  ((N <= consumed_count)%Z -> r = Return (false, LimitExceeded, 0%Z)).
Proof.
  intros Hc Hna Hu Hcode Hpos N consumed_count.
  pose proof (consume_spec ts username w ui Hu) as Hrun.
  destruct (consume ts username w) as [rs w1].
  destruct Hrun as (Hrs & Hcodes & [t Hu1] & _).
  rewrite (validate_user_known now username code w1 ci _)
    by (rewrite ?Hcodes; eassumption).
  cbn [user_code videos_used]. fold consumed_count. fold N.
  destruct (decide (user_code ui <> code)) as [Hne|_]; [congruence|].
  rewrite Hna. cbn [negb andb].
  split; [exact Hrs|]. split; [reflexivity|]. split; intros Hlt.
  - destruct (Z.leb_spec N consumed_count); [lia|].
    destruct (Z.ltb_spec 0 N); [reflexivity|lia].
  - destruct (Z.leb_spec N consumed_count); [reflexivity|lia].
Qed.

(** The scenario of the specification: [bob], bound to a code for two videos,
    consumes twice and is turned away. *)
Lemma validate_user_enforces_quota_witness :
  let '(rs, w1) := consume [5%Z; 6%Z] "bob" ledger_bob in
  let '(r, w2) := validate_user no_fault 7 "bob" "MK_ABC123" w1 in
  rs = [Return true; Return true] /\
  db w2 = db w1 /\
  ((0 + 2 < 2)%Z -> r = Return (true, "Welcome back!", (2 - (0 + 2))%Z)) /\
  ((2 <= 0 + 2)%Z -> r = Return (false, LimitExceeded, 0%Z)).
Proof.
  apply (validate_user_enforces_quota ledger_bob "bob" "MK_ABC123"
           (mk_code 2 false true 0) (mk_user "MK_ABC123" 0 0) [5%Z; 6%Z] 7);
    vm_compute; (reflexivity || discriminate).
Defined.

Ltac fault_step :=
  match goal with
  | |- context [match ?f ?n with Some _ => _ | None => _ end] =>
      is_var f; destruct (f n) eqn:?; cbn
  end.

(** What a validation does to the tables, whatever the store does: nothing,
    or the registration of a username that was not in [users]. *)
Lemma validate_user_effect (fault : nat -> option string) (now : Z)
    (username code : string) (w : world) :
  let '(r, w') := validate_user fault now username code w in
  db w' = db w \/
  (users (db w) !! username = None /\
   exists ci, codes (db w) !! code = Some ci /\
     negb (code_is_admin ci) && is_used ci = false /\
     r = Return (true, "Welcome new user!",
                 if (0 <? max_videos ci)%Z then max_videos ci else (-1)%Z) /\
     users (db w') = <[username := mk_user code 0 now]> (users (db w)) /\
     codes (db w') =
       if code_is_admin ci then codes (db w)
       else alter mark_used code (codes (db w))).
Proof.
  unfold_ledger. cbn.
  fault_step; [now left|]. fault_step; [now left|].
  destruct (codes (db w) !! code) as [ci|] eqn:Hc; cbn; [|now left].
  fault_step; [now left|].
  destruct (users (db w) !! username) as [ui|] eqn:Hu; cbn.
  { destruct (decide (user_code ui <> code)); cbn; [now left|].
    destruct (negb (code_is_admin ci) && (max_videos ci <=? videos_used ui)%Z);
      cbn; now left. }
  destruct (negb (code_is_admin ci) && is_used ci) eqn:Hgate; cbn; [now left|].
  fault_step; [now left|]. rewrite Hu. cbn.
  destruct (code_is_admin ci) eqn:Hadm; cbn.
  - fault_step; [now left|]. right. split; [reflexivity|].
    exists ci. rewrite Hadm. auto.
  - fault_step; [now left|]. fault_step; [now left|].
    right. split; [reflexivity|]. exists ci. rewrite Hadm. auto.
Qed.

(** The outcomes of a validation, whatever the store does. *)
Lemma validate_user_outcome (fault : nat -> option string) (now : Z)
    (username code : string) (w : world) :
  let r := fst (validate_user fault now username code w) in
  (exists msg, r = Return (false, "Authentication error: " +:+ msg, 0%Z)) \/
  (codes (db w) !! code = None /\ r = Return (false, InvalidCode, 0%Z)) \/
  (exists ci, codes (db w) !! code = Some ci /\
     match users (db w) !! username with
     | Some ui =>
         if decide (user_code ui <> code) then
           r = Return (false, CodeMismatch, 0%Z)
         else if negb (code_is_admin ci) && (max_videos ci <=? videos_used ui)%Z
         then r = Return (false, LimitExceeded, 0%Z)
         else r = Return (true, "Welcome back!",
                          if (0 <? max_videos ci)%Z
                          then (max_videos ci - videos_used ui)%Z else (-1)%Z)
     | None =>
         if negb (code_is_admin ci) && is_used ci then
           r = Return (false, CodeAlreadyConsumed, 0%Z)
         else r = Return (true, "Welcome new user!",
                          if (0 <? max_videos ci)%Z
                          then max_videos ci else (-1)%Z)
     end).
Proof.
  unfold_ledger. cbn.
  fault_step; [left; eauto|]. fault_step; [left; eauto|].
  destruct (codes (db w) !! code) as [ci|] eqn:Hc; cbn; [|right; left; auto].
  fault_step; [left; eauto|].
  destruct (users (db w) !! username) as [ui|] eqn:Hu; cbn.
  { right; right. exists ci. split; [reflexivity|].
    destruct (decide (user_code ui <> code)); cbn; [reflexivity|].
    destruct (negb (code_is_admin ci) && (max_videos ci <=? videos_used ui)%Z);
      reflexivity. }
  destruct (negb (code_is_admin ci) && is_used ci) eqn:Hgate; cbn.
  { right; right. exists ci. rewrite Hgate. auto. }
  fault_step; [left; eauto|]. rewrite Hu. cbn.
  destruct (code_is_admin ci) eqn:Hadm; cbn.
  - fault_step; [left; eauto|]. right; right. exists ci.
    split; [reflexivity|]. rewrite Hadm. reflexivity.
  - fault_step; [left; eauto|]. fault_step; [left; eauto|].
    right; right. exists ci. split; [reflexivity|]. rewrite Hadm.
    cbn in *. rewrite Hgate. reflexivity.
Qed.

(** C10. Whatever the store does, validation of a username that is already
    in table [users] writes nothing: both tables are as before, whatever the
    outcome.  A validation that changes a table is the accepted validation of
    a username that was not in [users]: it inserts the row of that username
    and, for a non-admin code, sets [is_used] of the code; nothing else
    changes. *)
Theorem validate_user_writes_only_for_new_user (fault : nat -> option string)
    (now : Z) (username code : string) (w : world) :
  let '(r, w') := validate_user fault now username code w in
  (is_Some (users (db w) !! username) -> db w' = db w) /\
  (db w' <> db w ->
     users (db w) !! username = None /\
     exists ci, codes (db w) !! code = Some ci /\
       r = Return (true, "Welcome new user!",
                   if (0 <? max_videos ci)%Z then max_videos ci else (-1)%Z) /\
       users (db w') = <[username := mk_user code 0 now]> (users (db w)) /\
       codes (db w') =
         if code_is_admin ci then codes (db w)
         else alter mark_used code (codes (db w))).
Proof.
  pose proof (validate_user_effect fault now username code w) as H.
  destruct (validate_user fault now username code w) as [r w'].
  destruct H as [Hsame | (Hnew & ci & Hc & _ & Hr & Hu & Hcodes)].
  - split; [auto | congruence].
  - split.
    + intros [ui Hui]. congruence.
    + intros _. split; [exact Hnew|]. exists ci. auto.
Qed.

(** A known username is never written, shown on a run: the store fails at
    its third call and the tables stay as they were. *)
Lemma validate_user_writes_only_for_new_user_witness :
  let '(r, w') :=
    validate_user (fun n => if Nat.eqb n 2 then Some "disk I/O error" else None)
      7 "bob" "MK_ABC123" ledger_bob in
  (is_Some (users (db ledger_bob) !! "bob") -> db w' = db ledger_bob) /\
  (db w' <> db ledger_bob ->
     users (db ledger_bob) !! "bob" = None /\
     exists ci, codes (db ledger_bob) !! "MK_ABC123" = Some ci /\
       r = Return (true, "Welcome new user!",
                   if (0 <? max_videos ci)%Z then max_videos ci else (-1)%Z) /\
       users (db w') =
         <["bob" := mk_user "MK_ABC123" 0 7]> (users (db ledger_bob)) /\
       codes (db w') =
         if code_is_admin ci then codes (db ledger_bob)
         else alter mark_used "MK_ABC123" (codes (db ledger_bob))).
Proof.
  exact (validate_user_writes_only_for_new_user
           (fun n => if Nat.eqb n 2 then Some "disk I/O error" else None)
           7 "bob" "MK_ABC123" ledger_bob).
Defined.

(** A username that is not in [users], on a store that raises no error. *)
Lemma validate_user_new (now : Z) (username code : string) (w : world)
    (ci : code_row) :
  codes (db w) !! code = Some ci ->
  users (db w) !! username = None ->
  let '(r, w') := validate_user no_fault now username code w in
  if negb (code_is_admin ci) && is_used ci then
    r = Return (false, CodeAlreadyConsumed, 0%Z) /\ db w' = db w
  else
    r = Return (true, "Welcome new user!",
                if (0 <? max_videos ci)%Z then max_videos ci else (-1)%Z) /\
    db w' =
      {| codes := if code_is_admin ci then codes (db w)
                  else alter mark_used code (codes (db w));
         users := <[username := mk_user code 0 now]> (users (db w)) |}.
Proof.
  intros Hc Hu. unfold_ledger. cbn. rewrite Hc. cbn. rewrite Hu. cbn.
  destruct (negb (code_is_admin ci) && is_used ci) eqn:Hgate; cbn; [auto|].
  rewrite Hu. cbn. destruct (code_is_admin ci); cbn; auto.
Qed.

Lemma validate_user_invalid (now : Z) (username code : string) (w : world) :
  codes (db w) !! code = None ->
  validate_user no_fault now username code w =
  (Return (false, InvalidCode, 0%Z),
   {| db := db w; issued := issued w + 2; drawn := drawn w |}).
Proof.
  intros Hc. unfold_ledger. cbn. rewrite Hc. cbn.
  replace (issued w + 2) with (S (S (issued w))) by lia. reflexivity.
Qed.

(** C4, as stated, fails on the code: a different username that is already
    registered (with another code) is turned away with [CodeMismatch], not
    [CodeAlreadyConsumed]; and the bound username retrying with a code that
    does not exist is turned away with [InvalidCode], not [CodeMismatch]. *)
Lemma validate_user_bound_code_counterexample :
  (fst (validate_user no_fault 9 "carol" "MK_AAAAAA" ledger_alice)
     = Return (false, CodeMismatch, 0%Z) /\
   fst (validate_user no_fault 9 "carol" "MK_AAAAAA" ledger_alice)
     <> Return (false, CodeAlreadyConsumed, 0%Z)) /\
  (fst (validate_user no_fault 9 "alice" "MK_NOSUCH" ledger_alice)
     = Return (false, InvalidCode, 0%Z) /\
   fst (validate_user no_fault 9 "alice" "MK_NOSUCH" ledger_alice)
     <> Return (false, CodeMismatch, 0%Z)).
Proof.
  split; (split; [vm_compute; reflexivity | vm_compute; discriminate]).
Qed.

(** C4, amended.  For a non-admin code that is used and bound to a username:
    a different username that is not yet in [users] is rejected with
    [CodeAlreadyConsumed]; a different username that is in [users] (bound to
    another code) is rejected with [CodeMismatch]; the bound username with a
    different code that exists is rejected with [CodeMismatch], and with a
    code that does not exist with [InvalidCode].  None of these validations
    writes. *)
Theorem validate_user_bound_code (w : world) (alice code : string)
    (ci : code_row) (ui : user_row) (now : Z) :
  codes (db w) !! code = Some ci ->
  code_is_admin ci = false ->
  is_used ci = true ->
  users (db w) !! alice = Some ui ->
  user_code ui = code ->
  (forall other, users (db w) !! other = None ->
     let '(r, w') := validate_user no_fault now other code w in
     r = Return (false, CodeAlreadyConsumed, 0%Z) /\ db w' = db w) /\
  (forall other uo, users (db w) !! other = Some uo -> user_code uo <> code ->
     let '(r, w') := validate_user no_fault now other code w in
     r = Return (false, CodeMismatch, 0%Z) /\ db w' = db w) /\
  (forall code', code' <> code -> is_Some (codes (db w) !! code') ->
     let '(r, w') := validate_user no_fault now alice code' w in
     r = Return (false, CodeMismatch, 0%Z) /\ db w' = db w) /\
  (forall code', codes (db w) !! code' = None ->
     let '(r, w') := validate_user no_fault now alice code' w in
     r = Return (false, InvalidCode, 0%Z) /\ db w' = db w).
Proof.
  intros Hc Hna Hused Hu Hcode. split; [|split; [|split]].
  - intros other Hnone.
    pose proof (validate_user_new now other code w ci Hc Hnone) as Hn.
    destruct (validate_user no_fault now other code w) as [r w'].
    rewrite Hna, Hused in Hn. exact Hn.
  - intros other uo Huo Hne.
    rewrite (validate_user_known now other code w ci uo Hc Huo).
    destruct (decide (user_code uo <> code)); [auto|contradiction].
  - intros code' Hne [ci' Hc'].
    rewrite (validate_user_known now alice code' w ci' ui Hc' Hu).
    destruct (decide (user_code ui <> code')) as [|Hnn]; [auto|].
    exfalso. apply Hnn. congruence.
  - intros code' Hnone.
    rewrite (validate_user_invalid now alice code' w Hnone). auto.
Qed.

(** The amended statement on the ledger of [alice] and [carol]. *)
Lemma validate_user_bound_code_witness :
  (forall other, users (db ledger_alice) !! other = None ->
     let '(r, w') := validate_user no_fault 9 other "MK_AAAAAA" ledger_alice in
     r = Return (false, CodeAlreadyConsumed, 0%Z) /\ db w' = db ledger_alice) /\
  (forall other uo, users (db ledger_alice) !! other = Some uo ->
     user_code uo <> "MK_AAAAAA" ->
     let '(r, w') := validate_user no_fault 9 other "MK_AAAAAA" ledger_alice in
     r = Return (false, CodeMismatch, 0%Z) /\ db w' = db ledger_alice) /\
  (forall code', code' <> "MK_AAAAAA" ->
     is_Some (codes (db ledger_alice) !! code') ->
     let '(r, w') := validate_user no_fault 9 "alice" code' ledger_alice in
     r = Return (false, CodeMismatch, 0%Z) /\ db w' = db ledger_alice) /\
  (forall code', codes (db ledger_alice) !! code' = None ->
     let '(r, w') := validate_user no_fault 9 "alice" code' ledger_alice in
     r = Return (false, InvalidCode, 0%Z) /\ db w' = db ledger_alice).
Proof.
  apply (validate_user_bound_code ledger_alice "alice" "MK_AAAAAA"
           (mk_code 1 false true 0) (mk_user "MK_AAAAAA" 0 1) 9);
    vm_compute; reflexivity.
Defined.

(** C9, as stated, fails on the code: after [dave] has bound the fresh
    code [MK_ZERO00], whose limit is 0, the code is stored as a used
    non-admin code with limit 0, and the brand-new username [erin] is turned
    away with "This code has already been used". *)
Lemma validate_user_zero_limit_counterexample :
  let w1 := snd (validate_user no_fault 3 "dave" "MK_ZERO00" ledger_zero) in
  codes (db w1) !! "MK_ZERO00" = Some (mk_code 0 false true 0) /\
  users (db w1) !! "erin" = None /\
  fst (validate_user no_fault 4 "erin" "MK_ZERO00" w1)
    = Return (false, "This code has already been used", 0%Z) /\
  ~ (forall (w : world) (username code : string) (ci : code_row) (now : Z),
       codes (db w) !! code = Some ci ->
       max_videos ci = 0%Z ->
       code_is_admin ci = false ->
       users (db w) !! username = None ->
       fst (validate_user no_fault now username code w)
         = Return (true, "Welcome new user!", (-1)%Z)).
Proof.
  split; [vm_compute; reflexivity|]. split; [vm_compute; reflexivity|].
  split; [vm_compute; reflexivity|].
  intros H.
  specialize (H (snd (validate_user no_fault 3 "dave" "MK_ZERO00"
                        ledger_zero))
                "erin" "MK_ZERO00" (mk_code 0 false true 0) 4%Z).
  assert (Hr : fst (validate_user no_fault 4 "erin" "MK_ZERO00"
                      (snd (validate_user no_fault 3 "dave" "MK_ZERO00"
                              ledger_zero)))
               = Return (false, "This code has already been used", 0%Z))
    by (vm_compute; reflexivity).
  rewrite Hr in H.
  enough (Return (false, "This code has already been used", 0%Z)
          = Return (true, "Welcome new user!", (-1)%Z)) by discriminate.
  apply H; vm_compute; reflexivity.
Qed.

(** C9, amended.  A non-admin code whose limit is 0 and a username that
    is not in [users].  While the code is not yet used, the validation is
    accepted and reports -1, the mark of an unlimited code, and binds the
    username; from then on every validation of that username with that code
    is rejected with [LimitExceeded], whatever was consumed in between, and
    every other username that is not in [users] is turned away with
    [CodeAlreadyConsumed].  Once the code is used, the validation is
    rejected with [CodeAlreadyConsumed] and nothing is written. *)
Theorem validate_user_zero_limit (w : world) (username code : string)
    (ci : code_row) (now : Z) :
  codes (db w) !! code = Some ci ->
  max_videos ci = 0%Z ->
  code_is_admin ci = false ->
  users (db w) !! username = None ->
  let '(r, w1) := validate_user no_fault now username code w in
  if is_used ci then
    r = Return (false, CodeAlreadyConsumed, 0%Z) /\ db w1 = db w
  else
    r = Return (true, "Welcome new user!", (-1)%Z) /\
    users (db w1) !! username = Some (mk_user code 0 now) /\
    (forall (ts : list Z) (now' : Z),
       let '(_, w2) := consume ts username w1 in
       fst (validate_user no_fault now' username code w2)
         = Return (false, LimitExceeded, 0%Z)) /\
    (forall (other : string) (now' : Z),
       users (db w1) !! other = None ->
       fst (validate_user no_fault now' other code w1)
         = Return (false, CodeAlreadyConsumed, 0%Z)).
Proof.
  intros Hc Hmax Hna Hu.
  pose proof (validate_user_new now username code w ci Hc Hu) as Hn.
  destruct (validate_user no_fault now username code w) as [r w1].
  rewrite Hna, Hmax in Hn. cbn in Hn.
  destruct (is_used ci) eqn:Hfresh; [exact Hn|].
  destruct Hn as [Hr Hdb].
  assert (Hu1 : users (db w1) !! username = Some (mk_user code 0 now)).
  { rewrite Hdb. cbn. apply lookup_insert_eq. }
  assert (Hc1 : codes (db w1) !! code = Some (mark_used ci)).
  { rewrite Hdb. cbn. rewrite lookup_alter_eq, Hc. reflexivity. }
  split; [exact Hr|]. split; [exact Hu1|]. split.
  - intros ts now'.
    pose proof (consume_spec ts username w1 _ Hu1) as Hrun.
    destruct (consume ts username w1) as [rs w2].
    destruct Hrun as (_ & Hcodes & [t Hu2] & _).
    rewrite (validate_user_known now' username code w2 (mark_used ci) _)
      by (rewrite ?Hcodes; eassumption).
    cbn. destruct (decide (code <> code)) as [Hne|_]; [congruence|].
    rewrite Hna, Hmax. cbn.
    destruct (Z.leb_spec 0 (0 + Z.of_nat (length ts))); [reflexivity|lia].
  - intros other now' Ho.
    pose proof (validate_user_new now' other code w1 (mark_used ci) Hc1 Ho)
      as Hn.
    destruct (validate_user no_fault now' other code w1) as [r' w2].
    cbn in Hn. rewrite Hna in Hn. cbn in Hn. destruct Hn as [-> _].
    reflexivity.
Qed.

(** A first validation against the fresh code [MK_ZERO00]. *)
Lemma validate_user_zero_limit_witness :
  codes (db ledger_zero) !! "MK_ZERO00" = Some (mk_code 0 false false 0) /\
  users (db ledger_zero) !! "dave" = None /\
  let '(r, w1) := validate_user no_fault 3 "dave" "MK_ZERO00" ledger_zero in
  r = Return (true, "Welcome new user!", (-1)%Z) /\
  users (db w1) !! "dave" = Some (mk_user "MK_ZERO00" 0 3) /\
  (forall (ts : list Z) (now' : Z),
     let '(_, w2) := consume ts "dave" w1 in
     fst (validate_user no_fault now' "dave" "MK_ZERO00" w2)
       = Return (false, LimitExceeded, 0%Z)) /\
  (forall (other : string) (now' : Z),
     users (db w1) !! other = None ->
     fst (validate_user no_fault now' other "MK_ZERO00" w1)
       = Return (false, CodeAlreadyConsumed, 0%Z)).
Proof.
  split; [vm_compute; reflexivity|]. split; [vm_compute; reflexivity|].
  apply (validate_user_zero_limit ledger_zero "dave" "MK_ZERO00"
           (mk_code 0 false false 0) 3); vm_compute; reflexivity.
Defined.

Lemma is_admin_no_fault (username : string) (w : world) :
  is_admin no_fault username w =
  (Return
     (match users (db w) !! username with
      | Some u =>
          match codes (db w) !! user_code u with
          | Some c => code_is_admin c
          | None => false
          end
      | None => false
      end),
   {| db := db w; issued := issued w + 2; drawn := drawn w |}).
Proof.
  unfold_ledger. cbn.
  replace (issued w + 2) with (S (S (issued w))) by lia.
  destruct (users (db w) !! username) as [u|]; [|reflexivity].
  destruct (codes (db w) !! user_code u); reflexivity.
Qed.

(** [is_admin] whatever the store does: it writes nothing, and a call into
    the store that raises is answered with [False]. *)
Lemma is_admin_run (fault : nat -> option string) (username : string)
    (w : world) :
  let '(r, w') := is_admin fault username w in
  db w' = db w /\
  r = Return
        match fault (issued w), fault (S (issued w)) with
        | None, None =>
            match users (db w) !! username with
            | Some u =>
                match codes (db w) !! user_code u with
                | Some c => code_is_admin c
                | None => false
                end
            | None => false
            end
        | _, _ => false
        end.
Proof.
  unfold_ledger. cbn.
  destruct (fault (issued w)); cbn; [auto|].
  destruct (fault (S (issued w))); cbn; [auto|].
  split; [reflexivity|].
  destruct (users (db w) !! username) as [u|]; [|reflexivity].
  destruct (codes (db w) !! user_code u); reflexivity.
Qed.

(** C5, as stated, fails on the code: [Mani] is bound to the admin code of a
    freshly initialised database and logs in while the store is locked for
    the first call of [is_admin] (the tenth call into the store).  The login
    is accepted, the session is opened without the admin flag, and
    [update_video_usage] then records a video for [Mani]. *)
Lemma admin_user_is_unmetered_counterexample :
  let fault := fun n => if n =? 9 then Some "database is locked" else None in
  let a1 := submit_login fault ADMIN_USERNAME ADMIN_CODE app_start in
  let a2 := update_video_usage no_fault a1 in
  users (db (ledger app_start)) !! ADMIN_USERNAME
    = Some (mk_user ADMIN_CODE 0 0) /\
  codes (db (ledger app_start)) !! ADMIN_CODE
    = Some (mk_code (-1) true false 0) /\
  trace a1 = [Shown SUCCESS "Welcome back!"] /\
  authenticated (session a1) = true /\
  username (session a1) = Some ADMIN_USERNAME /\
  session_is_admin (session a1) = false /\
  users (db (ledger a1)) !! ADMIN_USERNAME = Some (mk_user ADMIN_CODE 0 0) /\
  users (db (ledger a2)) !! ADMIN_USERNAME = Some (mk_user ADMIN_CODE 1 0).
Proof. vm_compute. repeat split. Qed.

(** C5, amended.  A username bound to an admin code, whatever its count
    of videos: no validation of it ends in [LimitExceeded], whichever code
    is supplied and whatever the store does, and with its own code it is
    accepted on a store that raises no error; and
    no validation, of any username with any code, changes the row of the
    admin code, so its [is_used] flag stays as it was.  No video is recorded
    in a session whose admin flag is set: [update_video_usage] leaves the
    whole state as it is.  An accepted login of the username writes nothing
    and sets the flag exactly when the two calls of [is_admin] into the
    store raise no error, as on a store that raises none; when one of them
    raises, the session is opened without the flag, and
    [update_video_usage] then records a video for the username as for any
    other. *)
Theorem admin_user_is_unmetered (a : app) (u : string) (ui : user_row)
    (ca : code_row) :
  users (db (ledger a)) !! u = Some ui ->
  codes (db (ledger a)) !! user_code ui = Some ca ->
  code_is_admin ca = true ->
  (forall fault now code valid remaining,
     fst (validate_user fault now u code (ledger a))
       <> Return (valid, LimitExceeded, remaining)) /\
  (forall now,
     fst (validate_user no_fault now u (user_code ui) (ledger a))
       = Return (true, "Welcome back!",
                 if (0 <? max_videos ca)%Z
                 then (max_videos ca - videos_used ui)%Z else (-1)%Z)) /\
  (forall fault a0,
     session_is_admin (session a0) = true ->
     update_video_usage fault a0 = a0) /\
  (let a1 := submit_login no_fault u (user_code ui) a in
   username (session a1) = Some u /\
   session_is_admin (session a1) = true /\
   forall fault, update_video_usage fault a1 = a1) /\
  (forall fault msg remaining,
     let '(r, w1) :=
       validate_user fault (clock a) u (user_code ui) (ledger a) in
     r = Return (true, msg, remaining) ->
     let a1 := submit_login fault u (user_code ui) a in
     authenticated (session a1) = true /\
     username (session a1) = Some u /\
     db (ledger a1) = db (ledger a) /\
     session_is_admin (session a1)
       = match fault (issued w1), fault (S (issued w1)) with
         | None, None => true
         | _, _ => false
         end) /\
  (forall a0,
     session_is_admin (session a0) = false ->
     username (session a0) = Some u ->
     db (ledger a0) = db (ledger a) ->
     users (db (ledger (update_video_usage no_fault a0))) !! u
       = Some (bump_usage (clock a0) ui)) /\
  (forall fault now u' c',
     codes (db (snd (validate_user fault now u' c' (ledger a)))) !! user_code ui
       = Some ca).
Proof.
  intros Hu Hc Hadm. split; [|split; [|split; [|split; [|split; [|split]]]]].
  - intros fault now code valid remaining.
    pose proof (validate_user_outcome fault now u code (ledger a)) as H.
    cbv zeta in H.
    destruct H as [[msg ->] | [[_ ->] | (ci & Hci & H)]];
      [ unfold LimitExceeded; cbv beta iota delta [String.append]; congruence
      | unfold InvalidCode, LimitExceeded; congruence
      | ].
    rewrite Hu in H.
    destruct (decide (user_code ui <> code)) as [Hne|Heq].
    { rewrite H. unfold CodeMismatch, LimitExceeded. congruence. }
    assert (user_code ui = code)
      by (destruct (decide (user_code ui = code)); tauto).
    subst code. rewrite Hc in Hci. injection Hci as <-.
    rewrite Hadm in H. cbn in H. rewrite H. unfold LimitExceeded. congruence.
  - intros now. rewrite (validate_user_known now u _ (ledger a) ca ui Hc Hu).
    destruct (decide (user_code ui <> user_code ui)); [congruence|].
    rewrite Hadm. reflexivity.
  - intros fault a0 Hflag. unfold update_video_usage. rewrite Hflag.
    reflexivity.
  - unfold submit_login.
    rewrite (validate_user_known (clock a) u _ (ledger a) ca ui Hc Hu).
    destruct (decide (user_code ui <> user_code ui)); [congruence|].
    rewrite Hadm. cbn [negb andb]. unfold login. cbn [ledger emit with_session].
    rewrite is_admin_no_fault. cbn [db]. rewrite Hu, Hc, Hadm.
    cbn. split; [reflexivity|]. split; [reflexivity|].
    intros fault. reflexivity.
  - intros fault msg remaining.
    pose proof (validate_user_effect fault (clock a) u (user_code ui)
                  (ledger a)) as He.
    unfold submit_login.
    destruct (validate_user fault (clock a) u (user_code ui) (ledger a))
      as [r w1].
    intros ->.
    assert (Hdb : db w1 = db (ledger a)).
    { destruct He as [H | (Hnone & _)]; [exact H | congruence]. }
    unfold login. cbn [ledger emit with_session].
    pose proof (is_admin_run fault u w1) as Hrun.
    destruct (is_admin fault u w1) as [r2 w2].
    destruct Hrun as [Hdb2 ->]. cbn.
    split; [reflexivity|]. split; [reflexivity|].
    split; [congruence|].
    rewrite Hdb, Hu, Hc, Hadm. reflexivity.
  - intros a0 Hflag Hname Hdb. unfold update_video_usage, increment_usage_of.
    rewrite Hflag, Hname. cbn [negb].
    rewrite increment_usage_no_fault. cbn.
    rewrite lookup_alter_eq, Hdb, Hu. reflexivity.
  - intros fault now u' c'.
    pose proof (validate_user_effect fault now u' c' (ledger a)) as H.
    destruct (validate_user fault now u' c' (ledger a)) as [r w']. cbn [snd].
    destruct H as [-> | (_ & ci & Hci & _ & _ & _ & ->)]; [exact Hc|].
    destruct (code_is_admin ci) eqn:Hci_adm; [exact Hc|].
    rewrite lookup_alter_ne; [exact Hc|].
    intros ->. rewrite Hc in Hci. congruence.
Qed.

(** The default administrator of a freshly initialised database. *)
Lemma admin_user_is_unmetered_witness :
  users (db (ledger app_start)) !! ADMIN_USERNAME
    = Some (mk_user ADMIN_CODE 0 0) /\
  codes (db (ledger app_start)) !! ADMIN_CODE
    = Some (mk_code (-1) true false 0) /\
  (forall fault now code valid remaining,
     fst (validate_user fault now ADMIN_USERNAME code (ledger app_start))
       <> Return (valid, LimitExceeded, remaining)) /\
  (forall now,
     fst (validate_user no_fault now ADMIN_USERNAME ADMIN_CODE
            (ledger app_start))
       = Return (true, "Welcome back!",
                 if (0 <? -1)%Z then (-1 - 0)%Z else (-1)%Z)) /\
  (forall fault a0,
     session_is_admin (session a0) = true ->
     update_video_usage fault a0 = a0) /\
  (let a1 := submit_login no_fault ADMIN_USERNAME ADMIN_CODE app_start in
   username (session a1) = Some ADMIN_USERNAME /\
   session_is_admin (session a1) = true /\
   forall fault, update_video_usage fault a1 = a1) /\
  (forall fault msg remaining,
     let '(r, w1) :=
       validate_user fault (clock app_start) ADMIN_USERNAME ADMIN_CODE
         (ledger app_start) in
     r = Return (true, msg, remaining) ->
     let a1 := submit_login fault ADMIN_USERNAME ADMIN_CODE app_start in
     authenticated (session a1) = true /\
     username (session a1) = Some ADMIN_USERNAME /\
     db (ledger a1) = db (ledger app_start) /\
     session_is_admin (session a1)
       = match fault (issued w1), fault (S (issued w1)) with
         | None, None => true
         | _, _ => false
         end) /\
  (forall a0,
     session_is_admin (session a0) = false ->
     username (session a0) = Some ADMIN_USERNAME ->
     db (ledger a0) = db (ledger app_start) ->
     users (db (ledger (update_video_usage no_fault a0))) !! ADMIN_USERNAME
       = Some (bump_usage (clock a0) (mk_user ADMIN_CODE 0 0))) /\
  (forall fault now u' c',
     codes (db (snd (validate_user fault now u' c' (ledger app_start))))
       !! ADMIN_CODE
       = Some (mk_code (-1) true false 0)).
Proof.
  split; [vm_compute; reflexivity|]. split; [vm_compute; reflexivity|].
  apply (admin_user_is_unmetered app_start ADMIN_USERNAME
           (mk_user ADMIN_CODE 0 0) (mk_code (-1) true false 0));
    vm_compute; reflexivity.
Defined.

(** C3, as stated, fails on the code: for a username that no row of [users]
    has, [increment_usage] reports success, and nothing was incremented. *)
Lemma increment_usage_unknown_user_counterexample :
  users (db ledger_bob) !! "ghost" = None /\
  fst (increment_usage no_fault 8 "ghost" ledger_bob) = Return true /\
  db (snd (increment_usage no_fault 8 "ghost" ledger_bob)) = db ledger_bob.
Proof. vm_compute. auto. Qed.

(** C3, amended.  [increment_usage] reports failure exactly when one of its
    three calls into the store (connect, update, commit) raises, and then
    nothing is written.  Otherwise it reports success, whether or not a row
    of the username exists: the row of the username, if there is one, has its
    count incremented by one and [last_used] set, in one transaction, and
    every other row is as before; if there is none, nothing changes. *)
Theorem increment_usage_reports (fault : nat -> option string) (now : Z)
    (username : string) (w : world) :
  let '(r, w') := increment_usage fault now username w in
  let raised :=
    exists i, issued w <= i < issued w + 3 /\ is_Some (fault i) in
  (r = Return false /\ raised /\ db w' = db w) \/
  (r = Return true /\ ~ raised /\
   codes (db w') = codes (db w) /\
   users (db w') !! username = bump_usage now <$> users (db w) !! username /\
   (forall other, other <> username ->
      users (db w') !! other = users (db w) !! other) /\
   (users (db w) !! username = None -> db w' = db w)).
Proof.
  unfold_ledger. cbn.
  destruct (fault (issued w)) eqn:H0; cbn.
  { left. repeat split; auto. exists (issued w). rewrite H0.
    split; [lia|eauto]. }
  destruct (fault (S (issued w))) eqn:H1; cbn.
  { left. repeat split; auto. exists (S (issued w)). rewrite H1.
    split; [lia|eauto]. }
  destruct (fault (S (S (issued w)))) eqn:H2; cbn.
  { left. repeat split; auto. exists (S (S (issued w))). rewrite H2.
    split; [lia|eauto]. }
  right. split; [reflexivity|]. split.
  { intros (i & Hi & [msg Hmsg]).
    assert (i = issued w \/ i = S (issued w) \/ i = S (S (issued w)))
      as [-> | [-> | ->]] by lia; congruence. }
  split; [reflexivity|]. split; [apply lookup_alter_eq|].
  split; [intros other Hne; now apply lookup_alter_ne|].
  intros Hnone. destruct (db w) as [cs us]. cbn in *. f_equal.
  apply map_eq. intros k. destruct (decide (k = username)) as [->|Hne].
  - rewrite lookup_alter_eq, Hnone. reflexivity.
  - now rewrite lookup_alter_ne.
Qed.

(** What [process_video] does once the attempt is admitted. *)
Lemma process_video_try_trace
    (pipeline : source -> Z -> session_state -> list entry -> stage_run)
    (uploaded_file : option string) (a : app) :
  let '(x, a') := process_video_try pipeline uploaded_file a in
  (exists rest, trace a' = trace a ++ job_started_events ++ rest) /\
  match job_source (session a) uploaded_file with
  | Some src =>
      In (StageCall src (clock a)) (trace a') /\
      (x = Propagated <->
       ending_of (pipeline src (clock a) (job_session a) (files a))
         = Interrupted)
  | None => x = Normal
  end.
Proof.
  unfold process_video_try, job_source, run_stage, emit, with_session. cbn.
  destruct (video_url (session a)) as [url|];
    [|destruct uploaded_file as [f|]]; cbn.
  3: { split; [|reflexivity]. eexists. rewrite <- !app_assoc. cbn. reflexivity. }
  all: destruct (ending_of (pipeline _ (clock a) _ (files a))) eqn:He; cbn;
    (split; [eexists; rewrite <- !app_assoc; cbn; reflexivity|]);
    (split; [rewrite ?in_app_iff; cbn; tauto | split; congruence]).
Qed.

(** The admission rule of [process_video] itself.  A call while a job is
    running, the job having started at [started]: when at most 300 seconds
    have passed the call is refused with the busy warning and nothing else
    happens (the flag and the start time stay, the pipeline is not called);
    when more than 300 seconds have passed, the flag is reset, the warning
    "Reset stuck processing state" is logged, and the call goes on as a call
    on an idle session does: the new job is started and the pipeline is
    called for its input. *)
Theorem process_video_admission
    (pipeline : source -> Z -> session_state -> list entry -> stage_run)
    (rmtree : Z -> entry -> option entry)
    (uploaded_file : option string) (a : app) (started : Z) :
  is_processing (session a) = true ->
  processing_start_time (session a) = Some started ->
  let idle := with_session (set_is_processing false) a in
  ((clock a - started <= seconds 300)%Z ->
     process_video pipeline rmtree uploaded_file a
       = (Normal, emit (Shown WARNING busy_message) a)) /\
  ((seconds 300 < clock a - started)%Z ->
     process_video pipeline rmtree uploaded_file a
       = process_video pipeline rmtree uploaded_file
           (emit (Logged WARNING stuck_message) idle) /\
     let '(x, a') := process_video pipeline rmtree uploaded_file a in
     (exists rest,
        trace a' = trace a ++ [Logged WARNING stuck_message]
                     ++ job_started_events ++ rest) /\
     match job_source (session a) uploaded_file with
     | Some src => In (StageCall src (clock a)) (trace a')
     | None => True
     end).
Proof.
  intros Hrun Hstart idle. unfold process_video. rewrite Hrun, Hstart. split.
  - intros Hle. destruct (Z.ltb_spec (seconds 300) (clock a - started));
      [lia|reflexivity].
  - intros Hlt. destruct (Z.ltb_spec (seconds 300) (clock a - started));
      [|lia].
    split; [reflexivity|].
    pose proof (process_video_try_trace pipeline uploaded_file
                  (emit (Logged WARNING stuck_message) idle)) as Htry.
    fold idle.
    destruct (process_video_try pipeline uploaded_file
                (emit (Logged WARNING stuck_message) idle)) as [x a1].
    destruct Htry as [[rest Hrest] Hsrc]. split.
    + exists (rest ++ [Logged INFO "Cleanup completed successfully"]).
      unfold process_video_finally, cleanup_memory, emit, with_session. cbn.
      rewrite Hrest. cbn. rewrite <- !app_assoc. reflexivity.
    + change (job_source (session (emit (Logged WARNING stuck_message) idle))
                uploaded_file)
        with (job_source (session a) uploaded_file) in Hsrc.
      destruct (job_source (session a) uploaded_file) as [src|]; [|exact I].
      destruct Hsrc as [Hin _].
      unfold process_video_finally, cleanup_memory, emit, with_session. cbn.
      rewrite in_app_iff. left. exact Hin.
Qed.

(** A job that started 400 seconds before the attempt. *)
Lemma process_video_admission_witness :
  let idle := with_session (set_is_processing false) app_running in
  ((clock app_running - 1000000 <= seconds 300)%Z ->
     process_video pipeline_ok rmtree_ok None app_running
       = (Normal, emit (Shown WARNING busy_message) app_running)) /\
  ((seconds 300 < clock app_running - 1000000)%Z ->
     process_video pipeline_ok rmtree_ok None app_running
       = process_video pipeline_ok rmtree_ok None
           (emit (Logged WARNING stuck_message) idle) /\
     let '(x, a') := process_video pipeline_ok rmtree_ok None app_running in
     (exists rest,
        trace a' = trace app_running ++ [Logged WARNING stuck_message]
                     ++ job_started_events ++ rest) /\
     match job_source (session app_running) None with
     | Some src => In (StageCall src (clock app_running)) (trace a')
     | None => True
     end).
Proof.
  apply (process_video_admission pipeline_ok rmtree_ok None app_running
           1000000);
    reflexivity.
Defined.

Lemma cleanup_memory_sweeps (rmtree : Z -> entry -> option entry)
    (force : bool) (a : app) :
  session (cleanup_memory rmtree force a) = session a /\
  clock (cleanup_memory rmtree force a) = clock a /\
  files (cleanup_memory rmtree force a)
    = omap (sweep rmtree (clock a)) (files a) /\
  trace (cleanup_memory rmtree force a)
    = trace a ++ [Logged INFO "Cleanup completed successfully"].
Proof. unfold cleanup_memory, emit. cbn. auto. Qed.

(** When every removal succeeds, the sweep leaves the entries that fail
    the test, and only them. *)
Lemma sweep_all_removed (rmtree : Z -> entry -> option entry) (now : Z)
    (fs : list entry) :
  (forall e, In e fs -> swept now e = true -> rmtree now e = None) ->
  omap (sweep rmtree now) fs = filter (fun e => swept now e = false) fs.
Proof.
  induction fs as [|e fs IH]; intros Hall; [reflexivity|].
  cbn [omap list_omap]. rewrite filter_cons. unfold sweep at 1.
  rewrite IH by (intros e' He'; apply Hall; right; exact He').
  destruct (swept now e) eqn:Hsw.
  - rewrite (Hall e (or_introl eq_refl) Hsw).
    destruct (decide (true = false)); [discriminate | reflexivity].
  - destruct (decide (false = false)); [reflexivity | contradiction].
Qed.

(** C7. A run of [process_video] that is admitted, however the pipeline
    ends (it returns, it raises, or it is left through an exception that
    [except Exception] does not catch) and whatever the file system does:
    when [process_video] is left, the processing flag is cleared, the start
    time is removed and [cleanup_memory] has run as the last step.  The
    sweep has handed to [shutil.rmtree] every directory named [temp_*] or
    [output_*] that the job left and that was last modified more than one
    hour before, and the working directory holds what these calls left: of
    such a directory nothing when its removal succeeded and the entry that
    the failed removal left otherwise, and every other entry as it was.
    When every removal succeeds no such directory is left.  Only an
    exception that is no [Exception] leaves [process_video]; an [Exception]
    of the pipeline is reported and swallowed. *)
Theorem process_video_always_releases
    (pipeline : source -> Z -> session_state -> list entry -> stage_run)
    (rmtree : Z -> entry -> option entry)
    (uploaded_file : option string) (a : app) :
  admissible a = true ->
  let '(x, a') := process_video pipeline rmtree uploaded_file a in
  let left_by_job :=
    match job_source (session a) uploaded_file with
    | Some src =>
        files_after (pipeline src (clock a) (job_session a) (files a))
    | None => files a
    end in
  is_processing (session a') = false /\
  processing_start_time (session a') = None /\
  (exists a1, a' = cleanup_memory rmtree true a1 /\
              is_processing (session a1) = false /\
              processing_start_time (session a1) = None /\
              files a1 = left_by_job) /\
  files a' = omap (sweep rmtree (clock a')) left_by_job /\
  ((forall e, In e left_by_job -> swept (clock a') e = true ->
      rmtree (clock a') e = None) ->
   files a' = filter (fun e => swept (clock a') e = false) left_by_job /\
   forall e, In e (files a') -> swept (clock a') e = false) /\
  match job_source (session a) uploaded_file with
  | Some src =>
      let r := pipeline src (clock a) (job_session a) (files a) in
      clock a' = (clock a + elapsed r)%Z /\
      match ending_of r with
      | Completed => x = Normal
      | Raised msg =>
          x = Normal /\
          In (Logged ERROR ("Error processing video: " +:+ msg)) (trace a')
      | Interrupted => x = Propagated
      end
  | None => x = Normal /\ clock a' = clock a
  end.
Proof.
  intros Hadm.
  assert (Hok : forall (now : Z) (fs : list entry),
    (forall e, In e fs -> swept now e = true -> rmtree now e = None) ->
    omap (sweep rmtree now) fs = filter (fun e => swept now e = false) fs /\
    forall e, In e (omap (sweep rmtree now) fs) -> swept now e = false).
  { intros now fs Hall. rewrite (sweep_all_removed rmtree now fs Hall).
    split; [reflexivity|]. intros e He. apply list_elem_of_In in He.
    apply list_elem_of_filter in He. tauto. }
  assert (Hrun : forall a0 : app,
    clock a0 = clock a -> files a0 = files a ->
    video_url (session a0) = video_url (session a) ->
    job_session a0 = job_session a ->
    let '(x, a1) := process_video_try pipeline uploaded_file a0 in
    let a' := process_video_finally rmtree a1 in
    let left_by_job :=
      match job_source (session a) uploaded_file with
      | Some src =>
          files_after (pipeline src (clock a) (job_session a) (files a))
      | None => files a
      end in
    is_processing (session a') = false /\
    processing_start_time (session a') = None /\
    (exists a1, a' = cleanup_memory rmtree true a1 /\
                is_processing (session a1) = false /\
                processing_start_time (session a1) = None /\
                files a1 = left_by_job) /\
    files a' = omap (sweep rmtree (clock a')) left_by_job /\
    ((forall e, In e left_by_job -> swept (clock a') e = true ->
        rmtree (clock a') e = None) ->
     files a' = filter (fun e => swept (clock a') e = false) left_by_job /\
     forall e, In e (files a') -> swept (clock a') e = false) /\
    match job_source (session a) uploaded_file with
    | Some src =>
        let r := pipeline src (clock a) (job_session a) (files a) in
        clock a' = (clock a + elapsed r)%Z /\
        match ending_of r with
        | Completed => x = Normal
        | Raised msg =>
            x = Normal /\
            In (Logged ERROR ("Error processing video: " +:+ msg)) (trace a')
        | Interrupted => x = Propagated
        end
    | None => x = Normal /\ clock a' = clock a
    end).
  { intros a0 Hclock Hfiles Hurl Hsess.
    unfold process_video_try, job_source, run_stage. cbn. rewrite Hurl.
    destruct (video_url (session a)) as [url|];
      [|destruct uploaded_file as [f|]]; cbn; rewrite ?Hclock, ?Hfiles, ?Hsess.
    3: { split; [reflexivity|]. split; [reflexivity|].
         split; [eexists; split; [reflexivity|]; cbn; auto|].
         split; [reflexivity|]. split; [apply Hok | auto]. }
    all: destruct (ending_of (pipeline _ (clock a) _ (files a))) eqn:He; cbn;
      (split; [reflexivity|]); (split; [reflexivity|]);
      (split; [eexists; split; [reflexivity|cbn; auto]|]);
      (split; [reflexivity|]); (split; [apply Hok|]);
      (split; [reflexivity|]); try reflexivity;
      (split; [reflexivity|]); rewrite !in_app_iff; cbn; tauto. }
  unfold admissible in Hadm. unfold process_video.
  destruct (is_processing (session a)); cbn in Hadm.
  - destruct (processing_start_time (session a)) as [started|].
    + rewrite Hadm.
      specialize (Hrun (emit (Logged WARNING stuck_message)
                          (with_session (set_is_processing false) a))
                    eq_refl eq_refl eq_refl eq_refl).
      destruct (process_video_try pipeline uploaded_file _) as [x a1].
      exact Hrun.
    + specialize (Hrun (with_session (set_is_processing false) a)
                    eq_refl eq_refl eq_refl eq_refl).
      destruct (process_video_try pipeline uploaded_file _) as [x a1].
      exact Hrun.
  - specialize (Hrun a eq_refl eq_refl eq_refl eq_refl).
    destruct (process_video_try pipeline uploaded_file a) as [x a1].
    exact Hrun.
Qed.

(** A stale job is reclaimed, the pipeline of the new job raises, and the
    old temporary directory is a symbolic link, which stays. *)
Lemma process_video_always_releases_witness :
  admissible app_running = true /\
  (let '(x, a') :=
     process_video pipeline_fails rmtree_refuses_link None app_running in
   let left_by_job :=
     match job_source (session app_running) None with
     | Some src =>
         files_after (pipeline_fails src (clock app_running)
                        (job_session app_running) (files app_running))
     | None => files app_running
     end in
   is_processing (session a') = false /\
   processing_start_time (session a') = None /\
   (exists a1, a' = cleanup_memory rmtree_refuses_link true a1 /\
               is_processing (session a1) = false /\
               processing_start_time (session a1) = None /\
               files a1 = left_by_job) /\
   files a' = omap (sweep rmtree_refuses_link (clock a')) left_by_job /\
   ((forall e, In e left_by_job -> swept (clock a') e = true ->
       rmtree_refuses_link (clock a') e = None) ->
    files a' = filter (fun e => swept (clock a') e = false) left_by_job /\
    forall e, In e (files a') -> swept (clock a') e = false) /\
   match job_source (session app_running) None with
   | Some src =>
       let r := pipeline_fails src (clock app_running)
                  (job_session app_running) (files app_running) in
       clock a' = (clock app_running + elapsed r)%Z /\
       match ending_of r with
       | Completed => x = Normal
       | Raised msg =>
           x = Normal /\
           In (Logged ERROR ("Error processing video: " +:+ msg)) (trace a')
       | Interrupted => x = Propagated
       end
   | None => x = Normal /\ clock a' = clock app_running
   end) /\
  files (snd (process_video pipeline_fails rmtree_refuses_link None
                app_running))
    = [mk_entry "temp_job" true (seconds 401);
       mk_entry "temp_old" true 0;
       mk_entry "notes.txt" false 0].
Proof.
  split; [reflexivity|]. split; [|reflexivity].
  apply (process_video_always_releases pipeline_fails rmtree_refuses_link
           None app_running).
  reflexivity.
Defined.

(** The button of the upload tab has a gate of its own, with no staleness
    rule: while the flag is set it refuses, however long ago the job
    started, and [process_video] is not reached. *)
Remark on_process_upload_refuses_while_flag_set
    (pipeline : source -> Z -> session_state -> list entry -> stage_run)
    (rmtree : Z -> entry -> option entry)
    (uploaded_file : string) (a : app) :
  is_processing (session a) = true ->
  on_process_upload pipeline rmtree uploaded_file a
    = (Normal, emit (Shown WARNING busy_message) a).
Proof. intros H. unfold on_process_upload. rewrite H. reflexivity. Qed.

(** The button of the URL tab applies the same staleness rule as
    [process_video] before it calls it. *)
Remark on_process_url_admission
    (pipeline : source -> Z -> session_state -> list entry -> stage_run)
    (rmtree : Z -> entry -> option entry)
    (uploaded_file : option string) (a : app) (started : Z) :
  is_processing (session a) = true ->
  processing_start_time (session a) = Some started ->
  ((clock a - started <= seconds 300)%Z ->
     on_process_url pipeline rmtree uploaded_file a
       = (Normal, emit (Shown WARNING busy_message_url) a)) /\
  ((seconds 300 < clock a - started)%Z ->
     on_process_url pipeline rmtree uploaded_file a
       = process_video pipeline rmtree uploaded_file
           (with_session (set_progress_status 0 "Starting video processing...")
              (emit (Logged WARNING stuck_message)
                 (with_session (set_is_processing false) a)))).
Proof.
  intros Hrun Hstart. unfold on_process_url. rewrite Hrun, Hstart. split.
  - intros Hle. destruct (Z.ltb_spec (seconds 300) (clock a - started));
      [lia|]. rewrite Hrun. reflexivity.
  - intros Hlt. destruct (Z.ltb_spec (seconds 300) (clock a - started));
      [|lia]. reflexivity.
Qed.

(** C2. The admission rule is not applied to every attempt: the button of
    the upload tab refuses a job that became stale.  In a session whose job
    started 400 seconds before, a click on "Process Video" is answered with
    the busy warning; the flag and the start time stay as they are, no
    warning is logged and the pipeline is not called.  In the same session
    [process_video] and the button of the URL tab log
    "Reset stuck processing state", start the new job and call the
    pipeline. *)
Theorem on_process_upload_refuses_stale_job :
  is_processing (session app_running) = true /\
  processing_start_time (session app_running) = Some (seconds 1) /\
  (seconds 300 < clock app_running - seconds 1)%Z /\
  (let '(x, a') :=
     on_process_upload pipeline_ok rmtree_ok "clip.mp4" app_running in
   x = Normal /\
   session a' = session app_running /\
   files a' = files app_running /\
   trace a' = [Shown WARNING busy_message]) /\
  (let '(x, a') := process_video pipeline_ok rmtree_ok None app_running in
   is_processing (session a') = false /\
   exists rest,
     trace a' = [Logged WARNING stuck_message] ++ job_started_events
                ++ rest /\
     In (StageCall (FromUrl "https://example.com/video.mp4") (seconds 401))
        rest) /\
  (let '(x, a') := on_process_url pipeline_ok rmtree_ok None app_running in
   is_processing (session a') = false /\
   exists rest,
     trace a' = [Logged WARNING stuck_message] ++ job_started_events
                ++ rest /\
     In (StageCall (FromUrl "https://example.com/video.mp4") (seconds 401))
        rest).
Proof.
  split; [reflexivity|]. split; [reflexivity|]. split; [reflexivity|].
  split; [|split].
  - rewrite (on_process_upload_refuses_while_flag_set pipeline_ok rmtree_ok
               "clip.mp4" app_running eq_refl).
    repeat split.
  - vm_compute. split; [reflexivity|]. eexists. split; [reflexivity|].
    cbn. tauto.
  - vm_compute. split; [reflexivity|]. eexists. split; [reflexivity|].
    cbn. tauto.
Qed.

(** [delete_code] on a store that raises no error: the row of the code and
    the rows of the users bound to it are gone; deleting a code that is not
    stored reports success too. *)
Remark delete_code_cascades (code : string) (w : world) :
  let '(r, w') := delete_code no_fault code w in
  r = Return true /\
  codes (db w') = delete code (codes (db w)) /\
  users (db w') = filter (fun kv => user_code kv.2 <> code) (users (db w)).
Proof. unfold_ledger. cbn. auto. Qed.

(** The scenario of the specification: a code for two videos, [bob] binds to
    it, consumes twice and is then turned away. *)
Example scenario_MK_ABC123 :
  let w0 :=
    mk_world (mk_db {[ "MK_ABC123" := mk_code 2 false false 0 ]} ∅) 0 0 in
  let '(r1, w1) := validate_user no_fault 1 "bob" "MK_ABC123" w0 in
  let '(c1, w2) := increment_usage no_fault 2 "bob" w1 in
  let '(r2, w3) := validate_user no_fault 3 "bob" "MK_ABC123" w2 in
  let '(c2, w4) := increment_usage no_fault 4 "bob" w3 in
  let '(r3, w5) := validate_user no_fault 5 "bob" "MK_ABC123" w4 in
  r1 = Return (true, "Welcome new user!", 2%Z) /\
  c1 = Return true /\
  r2 = Return (true, "Welcome back!", 1%Z) /\
  c2 = Return true /\
  r3 = Return (false, LimitExceeded, 0%Z).
Proof. vm_compute. auto 6. Qed.

Lemma random_chars_form (draw : nat -> nat) (n p : nat) :
  String.length (random_chars draw n p) = n /\
  Forall (fun ch => In ch alphabet)
         (String.list_ascii_of_string (random_chars draw n p)).
Proof.
  revert p. induction n as [|n IH]; intros p; cbn [random_chars].
  - split; [reflexivity|constructor].
  - destruct (IH (S p)) as [Hlen Hall]. split.
    + cbn. now rewrite Hlen.
    + cbn [String.list_ascii_of_string]. constructor; [|exact Hall].
      apply nth_In. apply Nat.mod_upper_bound. discriminate.
Qed.

Lemma candidate_well_formed (draw : nat -> nat) (prefix : string) (p : nat) :
  well_formed_code prefix (candidate draw prefix p).
Proof.
  exists (random_chars draw 6 p). split; [reflexivity|].
  apply random_chars_form.
Qed.

Ltac at_start :=
  match goal with
  | |- context [candidate ?draw ?prefix (drawn ?w + ?n)] =>
      replace (drawn w + n) with (drawn w) by lia
  end.

Ltac same_candidate H :=
  let H' := fresh in
  pose proof H as H';
  match type of H' with
  | context [candidate _ _ ?p] =>
      match goal with
      | |- context [candidate _ _ ?q] => replace q with p by lia
      end
  end;
  exact H'.

(** What [generate_unique_code] has done when it is observed for [fuel]
    iterations: it returned the first candidate that is not a stored code, or
    a call into the store raised, or every candidate so far was taken.  It
    writes nothing. *)
Lemma generate_unique_code_spec (fault : nat -> option string)
    (draw : nat -> nat) (prefix : string) (fuel : nat) :
  forall w : world,
  let '(r, w') := generate_unique_code fault draw fuel prefix w in
  db w' = db w /\
  match r with
  | Return code =>
      exists k, k < fuel /\
        code = candidate draw prefix (drawn w + 6 * k) /\
        codes (db w) !! code = None /\
        (forall j, j < k ->
           is_Some (codes (db w) !! candidate draw prefix (drawn w + 6 * j)))
  | Raise _ => exists i, is_Some (fault i)
  | Hang =>
      forall j, j < fuel ->
        is_Some (codes (db w) !! candidate draw prefix (drawn w + 6 * j))
  end.
Proof.
  induction fuel as [|fuel IH]; intros w; cbn [generate_unique_code].
  - unfold hang. split; [reflexivity|]. intros j Hj. lia.
  - unfold bind at 1. unfold random_choices. unfold bind at 1.
    unfold with_connection, select_code_exists, execute, sqlite_call. cbn.
    destruct (fault (issued w)) eqn:F0; cbn; [split; eauto|].
    destruct (fault (S (issued w))) eqn:F1; cbn; [split; eauto|].
    fold (candidate draw prefix (drawn w)).
    destruct (codes (db w) !! candidate draw prefix (drawn w)) as [ci|] eqn:Hc.
    + rewrite bool_decide_eq_true_2 by eauto.
      match goal with
      | |- context [generate_unique_code fault draw fuel prefix ?w1] =>
          specialize (IH w1);
          destruct (generate_unique_code fault draw fuel prefix w1) as [r w2]
      end.
      cbn [db drawn set_db] in IH.
      destruct IH as [Hdb IH]. split; [exact Hdb|].
      destruct r as [code|e|].
      * destruct IH as (k & Hk & -> & Hfresh & Hprev).
        exists (S k). split; [lia|]. split; [f_equal; lia|].
        split; [exact Hfresh|].
        intros [|j] Hj.
        -- at_start. rewrite Hc. eauto.
        -- same_candidate (Hprev j ltac:(lia)).
      * exact IH.
      * intros [|j] Hj.
        -- at_start. rewrite Hc. eauto.
        -- same_candidate (IH j ltac:(lia)).
    + assert (Hn : ~ is_Some (codes (db w) !! candidate draw prefix (drawn w)))
        by (rewrite Hc; intros [? ?]; discriminate).
      rewrite (bool_decide_eq_false_2 _ Hn).
      unfold ret. cbn. split; [reflexivity|].
      exists 0. at_start.
      split; [lia|]. split; [reflexivity|]. split; [exact Hc|].
      intros j Hj. lia.
Qed.

Lemma generate_unique_code_returns (draw : nat -> nat) (prefix : string)
    (fuel k : nat) (w : world) :
  k < fuel ->
  codes (db w) !! candidate draw prefix (drawn w + 6 * k) = None ->
  exists code w',
    generate_unique_code no_fault draw fuel prefix w = (Return code, w').
Proof.
  intros Hk Hfree.
  pose proof (generate_unique_code_spec no_fault draw prefix fuel w) as H.
  destruct (generate_unique_code no_fault draw fuel prefix w) as [[code|e|] w'].
  - eauto.
  - destruct H as [_ [i [x Hx]]]. discriminate.
  - destruct H as [_ H]. specialize (H k Hk). rewrite Hfree in H.
    destruct H; discriminate.
Qed.

(** The outcomes of [create_code] observed for [fuel] iterations of the
    retry loop, whatever the store does. *)
Lemma create_code_outcome (fault : nat -> option string) (draw : nat -> nat)
    (fuel : nat) (now : Z) (prefix : string) (max : Z) (admin : bool)
    (w : world) :
   let '(r, w') := create_code fault draw fuel now prefix max admin w in
   match r with
   | Return (true, code) =>
       well_formed_code prefix code /\
       codes (db w) !! code = None /\
       db w' =
         {| codes := <[code := mk_code max admin false now]> (codes (db w));
            users := users (db w) |} /\
       exists k, k < fuel /\
         code = candidate draw prefix (drawn w + 6 * k) /\
         forall j, j < k ->
           is_Some (codes (db w) !! candidate draw prefix (drawn w + 6 * j))
   | Return (false, code) =>
       code = "" /\ db w' = db w /\ exists i, is_Some (fault i)
   | Raise _ => False
   | Hang =>
       db w' = db w /\
       forall j, j < fuel ->
         is_Some (codes (db w) !! candidate draw prefix (drawn w + 6 * j))
   end.
Proof.
  unfold create_code, try_except. unfold bind at 1.
  pose proof (generate_unique_code_spec fault draw prefix fuel w) as H.
  destruct (generate_unique_code fault draw fuel prefix w) as [[code|e|] w1];
    destruct H as [Hdb H]; cbn.
  - destruct H as (k & Hk & Hcode & Hfree & Hprev).
    unfold_ledger. cbn.
    destruct (fault (issued w1)) eqn:F0; cbn; [eauto 6|].
    destruct (fault (S (issued w1))) eqn:F1; cbn; [eauto 6|].
    rewrite Hdb, Hfree. cbn.
    destruct (fault (S (S (issued w1)))) eqn:F2; cbn; [eauto 6|].
    split; [subst code; apply candidate_well_formed|].
    split; [exact Hfree|]. split; [reflexivity|]. eauto.
  - auto.
  - auto.
Qed.

(** C8, amended.  [create_code] retries without a bound: observed for [fuel]
    iterations of the loop, either it is still retrying, every candidate so
    far being a stored code, and has written nothing; or it reports
    [(True, code)], where [code] reads [prefix_XXXXXX], is the first
    candidate that was not a stored code, and is now stored with the given
    limit and admin flag, the tables being otherwise as before; or it
    reports [(False, "")], which happens only when a call into the store
    raised, and has written nothing.  On a store that raises no error, as
    soon as one of the first [fuel] candidates is free the code is issued. *)
Theorem create_code_retries_until_unique (draw : nat -> nat) (fuel : nat)
    (now : Z) (prefix : string) (max : Z) (admin : bool) (w : world) :
  (forall fault : nat -> option string,
   let '(r, w') := create_code fault draw fuel now prefix max admin w in
   match r with
   | Return (true, code) =>
       well_formed_code prefix code /\
       codes (db w) !! code = None /\
       db w' =
         {| codes := <[code := mk_code max admin false now]> (codes (db w));
            users := users (db w) |} /\
       exists k, k < fuel /\
         code = candidate draw prefix (drawn w + 6 * k) /\
         forall j, j < k ->
           is_Some (codes (db w) !! candidate draw prefix (drawn w + 6 * j))
   | Return (false, code) =>
       code = "" /\ db w' = db w /\ exists i, is_Some (fault i)
   | Raise _ => False
   | Hang =>
       db w' = db w /\
       forall j, j < fuel ->
         is_Some (codes (db w) !! candidate draw prefix (drawn w + 6 * j))
   end) /\
  (forall k, k < fuel ->
     codes (db w) !! candidate draw prefix (drawn w + 6 * k) = None ->
     exists code w',
       create_code no_fault draw fuel now prefix max admin w
         = (Return (true, code), w')).
Proof.
  split; [intros fault; apply create_code_outcome|].
  intros k Hk Hfree.
  pose proof (create_code_outcome no_fault draw fuel now prefix max admin w)
    as Hgen.
  destruct (create_code no_fault draw fuel now prefix max admin w)
    as [[[[|] code]|e|] w'].
  - eauto.
  - destruct Hgen as (_ & _ & i & x & Hx). discriminate.
  - contradiction.
  - destruct Hgen as [_ H]. specialize (H k Hk). rewrite Hfree in H.
    destruct H; discriminate.
Qed.

Lemma random_chars_ext (draw draw' : nat -> nat) (n p : nat) :
  (forall i, p <= i < p + n -> draw i = draw' i) ->
  random_chars draw n p = random_chars draw' n p.
Proof.
  revert p. induction n as [|n IH]; intros p H; cbn [random_chars];
    [reflexivity|].
  rewrite (H p) by lia. f_equal. apply IH. intros i Hi. apply H. lia.
Qed.

Lemma candidate_A_then_B (n j : nat) :
  6 * j + 6 <= n -> candidate (draw_A_then_B n) "MK" (6 * j) = "MK_AAAAAA".
Proof.
  intros Hj. unfold candidate.
  rewrite (random_chars_ext _ (fun _ => 0) 6 (6 * j)).
  - generalize (6 * j). intros p. reflexivity.
  - intros i Hi. unfold draw_A_then_B.
    destruct (Nat.ltb_spec i n); [reflexivity|lia].
Qed.

(** C8, as stated, fails on the code: the retry loop has no bound.  With
    [MK_AAAAAA] stored, no number of iterations is enough for all sequences of
    draws (draws that repeat [AAAAAA] once more than the bound keep the loop
    going, and [create_code] has neither issued a code nor reported a
    failure); and when the draws repeat [AAAAAA] forever [create_code] never
    returns. *)
Lemma create_code_unbounded_counterexample :
  (~ exists bound : nat, forall draw : nat -> nat,
       fst (create_code no_fault draw bound 0 "MK" 5 false ledger_taken)
         <> Hang)
  /\
  (~ exists (fuel : nat) (answer : bool * string),
       fst (create_code no_fault (fun _ => 0) fuel 0 "MK" 5 false ledger_taken)
         = Return answer).
Proof.
  split.
  - intros [bound H]. apply (H (draw_A_then_B (6 * bound))).
    unfold create_code, try_except. unfold bind at 1.
    pose proof (generate_unique_code_spec no_fault (draw_A_then_B (6 * bound))
                  "MK" bound ledger_taken) as Hs.
    destruct (generate_unique_code no_fault (draw_A_then_B (6 * bound)) bound
                "MK" ledger_taken) as [[code|e|] w1];
      destruct Hs as [_ Hs]; cbn.
    + exfalso. destruct Hs as (k & Hk & -> & Hfree & _).
      change (drawn ledger_taken + 6 * k) with (6 * k) in Hfree.
      rewrite candidate_A_then_B in Hfree by lia. discriminate.
    + exfalso. destruct Hs as [i [x Hx]]. discriminate.
    + reflexivity.
  - intros (fuel & answer & H).
    unfold create_code, try_except in H. unfold bind at 1 in H.
    pose proof (generate_unique_code_spec no_fault (fun _ => 0)
                  "MK" fuel ledger_taken) as Hs.
    destruct (generate_unique_code no_fault (fun _ => 0) fuel
                "MK" ledger_taken) as [[code|e|] w1];
      destruct Hs as [_ Hs]; cbn in H.
    + destruct Hs as (k & Hk & -> & Hfree & _).
      change (drawn ledger_taken + 6 * k) with (6 * k) in Hfree.
      revert Hfree. generalize (6 * k). intros p. discriminate.
    + destruct Hs as [i [x Hx]]. discriminate.
    + discriminate.
Qed.

(** A run of [create_code] with two retries: the first two candidates are
    the stored [MK_AAAAAA], the third is free and is issued. *)
Example create_code_after_two_retries :
  let '(r, w') :=
    create_code no_fault (draw_A_then_B 12) 3 7 "MK" 5 false ledger_taken in
  r = Return (true, "MK_BBBBBB") /\
  codes (db w') !! "MK_BBBBBB" = Some (mk_code 5 false false 7) /\
  fst (create_code no_fault (draw_A_then_B 12) 2 7 "MK" 5 false ledger_taken)
    = Hang.
Proof. vm_compute. auto. Qed.

(** The loop of [create_bulk_codes], run inside the open connection: the
    committed tables are not touched; when the loop ends normally, the
    connection's view holds one new row for each code added to the list, the
    codes added are pairwise distinct and none was a stored code. *)
Lemma bulk_loop_spec (fault : nat -> option string) (draw : nat -> nat)
    (fuel : nat) (now max : Z) (prefix : string) (n : nat) :
  forall (created : list string) (view : database) (w : world),
  let '(r, (view', w')) :=
    bulk_loop fault draw fuel now max prefix n created (view, w) in
  db w' = db w /\
  match r with
  | Return cs =>
      exists new, cs = created ++ new /\ length new = n /\ NoDup new /\
        (forall c, c ∈ new ->
           codes view !! c = None /\ codes (db w) !! c = None /\
           well_formed_code prefix c) /\
        users view' = users view /\
        (forall c, codes view' !! c =
           if decide (c ∈ new) then Some (mk_code max false false now)
           else codes view !! c)
  | _ => True
  end.
Proof.
  induction n as [|n IH]; intros created view w; cbn [bulk_loop].
  - unfold ret. split; [reflexivity|]. exists []. rewrite app_nil_r.
    split; [reflexivity|]. split; [reflexivity|].
    split; [apply NoDup_nil_2|]. split; [intros c Hc; inversion Hc|].
    split; [reflexivity|]. intros c. rewrite decide_False; [reflexivity|].
    intros Hc. inversion Hc.
  - unfold bind at 1. unfold outside.
    pose proof (generate_unique_code_spec fault draw prefix fuel w) as Hg.
    destruct (generate_unique_code fault draw fuel prefix w) as [[code|e|] w1];
      destruct Hg as [Hdb1 Hg]; [|split; auto..].
    destruct Hg as (k & _ & Hcode & Hfree & _).
    unfold bind at 1. unfold insert_code, execute, sqlite_call. cbn.
    destruct (fault (issued w1)); cbn; [split; auto|].
    destruct (codes view !! code) eqn:Hview; cbn; [split; auto|].
    match goal with
    | |- context [bulk_loop _ _ _ _ _ _ n ?cr (?v, ?w2)] =>
        specialize (IH cr v w2);
        destruct (bulk_loop fault draw fuel now max prefix n cr (v, w2))
          as [r [view' w']]
    end.
    cbn [db codes users] in IH. destruct IH as [Hdb IH].
    split; [congruence|].
    destruct r as [cs|e|]; [|exact I..].
    destruct IH as (new & -> & Hlen & Hnd & Hnew & Husers & Hcodes).
    exists (code :: new). rewrite <- app_assoc. cbn.
    split; [reflexivity|]. split; [now rewrite Hlen|].
    assert (Hnotin : code ∉ new).
    { intros Hin. destruct (Hnew code Hin) as [Hx _].
      rewrite lookup_insert_eq in Hx. discriminate. }
    split; [apply NoDup_cons_2; assumption|].
    split; [|split; [exact Husers|]].
    + intros c Hc. apply elem_of_cons in Hc as [->|Hc].
      * split; [exact Hview|]. split; [exact Hfree|].
        rewrite Hcode. apply candidate_well_formed.
      * destruct (Hnew c Hc) as (Hv & Hd & Hwf).
        assert (c <> code) by (intros ->; contradiction).
        rewrite lookup_insert_ne in Hv by congruence.
        rewrite Hdb1 in Hd. auto.
    + intros c. rewrite Hcodes.
      destruct (decide (c ∈ new)) as [Hin|Hnin].
      * rewrite decide_True by (apply elem_of_cons; auto). reflexivity.
      * destruct (decide (c = code)) as [->|Hne].
        -- rewrite decide_True by (apply elem_of_cons; auto).
           apply lookup_insert_eq.
        -- rewrite decide_False by (rewrite elem_of_cons; tauto).
           apply lookup_insert_ne. congruence.
Qed.

(** The loop does not hang when, from every position of the draws, one of
    the next [fuel] candidates is not a stored code. *)
Lemma bulk_loop_ends (fault : nat -> option string) (draw : nat -> nat)
    (fuel : nat) (now max : Z) (prefix : string) (d : database) (n : nat) :
  (forall p, exists k, k < fuel /\
     codes d !! candidate draw prefix (p + 6 * k) = None) ->
  forall (created : list string) (view : database) (w : world),
  db w = d ->
  fst (bulk_loop fault draw fuel now max prefix n created (view, w)) <> Hang.
Proof.
  intros Hfree. induction n as [|n IH]; intros created view w Hd;
    cbn [bulk_loop]; [discriminate|].
  unfold bind at 1. unfold outside.
  pose proof (generate_unique_code_spec fault draw prefix fuel w) as Hg.
  destruct (generate_unique_code fault draw fuel prefix w) as [[code|e|] w1];
    destruct Hg as [Hdb1 Hg]; [|discriminate|].
  - unfold bind at 1. unfold insert_code, execute, sqlite_call. cbn.
    destruct (fault (issued w1)); cbn; [discriminate|].
    destruct (codes view !! code); cbn; [discriminate|].
    apply IH. cbn. congruence.
  - exfalso. destruct (Hfree (drawn w)) as (k & Hk & Hnone).
    specialize (Hg k Hk). rewrite Hd, Hnone in Hg. destruct Hg; discriminate.
Qed.

(** C6. Bulk issuance is all or nothing, whatever the store does and
    whatever is drawn.  When [create_bulk_codes] returns, it returns either
    the empty list, and the tables are as before the call (every insert of
    the batch was rolled back), or a list of [num_codes] pairwise distinct
    codes of the form [prefix_XXXXXX], none of which was a stored code, and
    the tables are as before but for one new row per code of the list, with
    the given limit, not admin and not used.  No exception leaves it.  While
    it has not returned nothing is written; and it does return as soon as,
    from every position of the draws, one of the next [fuel] candidates is
    not a stored code. *)
Theorem create_bulk_codes_all_or_nothing (fault : nat -> option string)
    (draw : nat -> nat) (fuel : nat) (now : Z) (num_codes max : Z)
    (prefix : string) (w : world) :
  let '(r, w') :=
    create_bulk_codes fault draw fuel now num_codes max prefix w in
  match r with
  | Return created_codes =>
      (created_codes = [] /\ db w' = db w) \/
      (length created_codes = Z.to_nat num_codes /\
       NoDup created_codes /\
       (forall c, c ∈ created_codes ->
          codes (db w) !! c = None /\ well_formed_code prefix c) /\
       users (db w') = users (db w) /\
       (forall c, codes (db w') !! c =
          if decide (c ∈ created_codes)
          then Some (mk_code max false false now)
          else codes (db w) !! c))
  | Raise _ => False
  | Hang => db w' = db w
  end /\
  ((forall p, exists k, k < fuel /\
      codes (db w) !! candidate draw prefix (p + 6 * k) = None) ->
   r <> Hang).
Proof.
  unfold create_bulk_codes, try_except, with_connection, sqlite_call. cbn.
  destruct (fault (issued w)); cbn.
  { split; [left; auto|discriminate]. }
  unfold bind at 1.
  match goal with
  | |- context [bulk_loop _ _ _ _ _ _ ?n ?cr (?v, ?w1)] =>
      pose proof (bulk_loop_spec fault draw fuel now max prefix n cr v w1)
        as Hs;
      pose proof (fun H => bulk_loop_ends fault draw fuel now max prefix (db w)
                             n H cr v w1 eq_refl) as He;
      destruct (bulk_loop fault draw fuel now max prefix n cr (v, w1))
        as [r [view' w2]]
  end.
  cbn [db codes users fst] in Hs, He. destruct Hs as [Hdb Hs].
  destruct r as [cs|e|]; cbn.
  - unfold bind at 1. unfold commit, sqlite_call. cbn.
    destruct (fault (issued w2)); cbn.
    { split; [left; auto|discriminate]. }
    split; [|discriminate]. right.
    destruct Hs as (new & -> & Hlen & Hnd & Hnew & Husers & Hcodes).
    cbn. split; [exact Hlen|]. split; [exact Hnd|].
    split; [|split; [exact Husers|exact Hcodes]].
    intros c Hc. destruct (Hnew c Hc) as (_ & ? & ?). auto.
  - split; [left; auto|discriminate].
  - split; [exact Hdb|]. exact He.
Qed.

(** A batch that fails half way: the second code drawn repeats the first,
    its insert violates the primary key, and the first insert is rolled
    back with it. *)
Example create_bulk_codes_rolls_back :
  let '(r, w') :=
    create_bulk_codes no_fault (fun _ => 1) 4 0 2 5 "MK" ledger_taken in
  r = Return [] /\ db w' = db ledger_taken.
Proof. vm_compute. auto. Qed.

(** A batch that succeeds. *)
Example create_bulk_codes_issues :
  let '(r, w') :=
    create_bulk_codes no_fault (fun i => 7 * i) 4 0 2 5 "MK" ledger_taken in
  r = Return ["MK_AHOV29"; "MK_GNU18F"] /\
  codes (db w') !! "MK_GNU18F" = Some (mk_code 5 false false 0).
Proof. vm_compute. auto. Qed.

(** * Further properties of the ledger *)

Lemma increment_usage_effect (fault : nat -> option string) (now : Z)
    (username : string) (w : world) :
  let '(r, w') := increment_usage fault now username w in
  (r = Return false /\ db w' = db w) \/
  (r = Return true /\
   db w' = {| codes := codes (db w);
              users := alter (bump_usage now) username (users (db w)) |}).
Proof.
  unfold_ledger. cbn.
  fault_step; [now left|]. fault_step; [now left|]. fault_step; [now left|].
  now right.
Qed.

Lemma is_admin_effect (fault : nat -> option string) (username : string)
    (w : world) :
  db (snd (is_admin fault username w)) = db w.
Proof.
  unfold_ledger. cbn. fault_step; [reflexivity|]. fault_step; reflexivity.
Qed.

Lemma delete_code_effect (fault : nat -> option string) (code : string)
    (w : world) :
  let '(r, w') := delete_code fault code w in
  (r = Return false /\ db w' = db w) \/
  (r = Return true /\
   db w' = {| codes := delete code (codes (db w));
              users := filter (fun kv => user_code kv.2 <> code)
                              (users (db w)) |}).
Proof.
  unfold_ledger. cbn.
  fault_step; [now left|]. fault_step; [now left|]. fault_step; [now left|].
  fault_step; [now left|]. now right.
Qed.

Lemma create_bulk_codes_effect (fault : nat -> option string)
    (draw : nat -> nat) (fuel : nat) (now : Z) (num_codes max : Z)
    (prefix : string) (w : world) :
  let '(r, w') :=
    create_bulk_codes fault draw fuel now num_codes max prefix w in
  db w' = db w \/
  exists new, r = Return new /\
    (forall c, c ∈ new -> codes (db w) !! c = None) /\
    (forall c, codes (db w') !! c =
       if decide (c ∈ new) then Some (mk_code max false false now)
       else codes (db w) !! c) /\
    users (db w') = users (db w).
Proof.
  unfold create_bulk_codes, try_except, with_connection, sqlite_call. cbn.
  destruct (fault (issued w)); cbn; [now left|].
  unfold bind at 1.
  match goal with
  | |- context [bulk_loop _ _ _ _ _ _ ?n ?cr (?v, ?w1)] =>
      pose proof (bulk_loop_spec fault draw fuel now max prefix n cr v w1)
        as Hs;
      destruct (bulk_loop fault draw fuel now max prefix n cr (v, w1))
        as [r [view' w2]]
  end.
  cbn [db codes users fst] in Hs. destruct Hs as [Hdb Hs].
  destruct r as [cs|e|]; cbn; [|now left..].
  unfold bind at 1. unfold commit, sqlite_call. cbn.
  destruct (fault (issued w2)); cbn; [now left|].
  right. destruct Hs as (new & -> & Hlen & Hnd & Hnew & Husers & Hcodes).
  exists new. cbn. split; [reflexivity|]. split; [|split; assumption].
  intros c Hc. destruct (Hnew c Hc) as (_ & ? & _). assumption.
Qed.

Lemma get_all_codes_effect (fault : nat -> option string) (w : world) :
  db (snd (get_all_codes fault w)) = db w.
Proof.
  unfold get_all_codes. unfold_ledger. cbn.
  fault_step; [reflexivity|]. fault_step; reflexivity.
Qed.

Lemma get_user_stats_effect (fault : nat -> option string)
    (code : option string) (w : world) :
  db (snd (get_user_stats fault code w)) = db w.
Proof.
  unfold get_user_stats. unfold_ledger. cbn.
  fault_step; [reflexivity|]. fault_step; reflexivity.
Qed.

(** Whatever the store does and whatever is drawn, a call changes the
    tables in one of the ways of [change]. *)
Lemma perform_change (fault : nat -> option string) (draw : nat -> nat)
    (c : call) (w : world) :
  change (db w) (db (perform fault draw c w)).
Proof.
  destruct c as [now u code|now u|u|fuel now prefix max admin
                |fuel now n max prefix|code| |code]; cbn [perform].
  - pose proof (validate_user_effect fault now u code w) as H.
    destruct (validate_user fault now u code w) as [r w']. cbn.
    destruct H as [-> | (Hu & ci & Hc & Hgate & _ & Hus & Hcs)];
      [constructor|].
    destruct (db w') as [cs' us']. cbn in *. subst.
    now apply change_register.
  - pose proof (increment_usage_effect fault now u w) as H.
    destruct (increment_usage fault now u w) as [r w']. cbn.
    destruct H as [[_ ->] | [_ ->]]; constructor.
  - rewrite is_admin_effect. constructor.
  - pose proof (create_code_outcome fault draw fuel now prefix max admin w)
      as H.
    destruct (create_code fault draw fuel now prefix max admin w)
      as [[[[|] code]|e|] w']; cbn.
    + destruct H as (_ & Hfree & -> & _).
      apply (change_issue _ _ [code] max admin now); cbn.
      * intros c Hc. apply list_elem_of_singleton in Hc as ->. exact Hfree.
      * intros c. destruct (decide (c = code)) as [->|Hne].
        -- rewrite decide_True by (apply list_elem_of_singleton; reflexivity).
           apply lookup_insert_eq.
        -- rewrite decide_False by (rewrite list_elem_of_singleton; exact Hne).
           apply lookup_insert_ne. congruence.
      * reflexivity.
    + destruct H as (_ & -> & _). constructor.
    + contradiction.
    + destruct H as [-> _]. constructor.
  - pose proof (create_bulk_codes_effect fault draw fuel now n max prefix w)
      as H.
    destruct (create_bulk_codes fault draw fuel now n max prefix w)
      as [r w']. cbn.
    destruct H as [-> | (new & _ & Hfree & Hcodes & Husers)]; [constructor|].
    now apply (change_issue _ _ new max false now).
  - pose proof (delete_code_effect fault code w) as H.
    destruct (delete_code fault code w) as [r w']. cbn.
    destruct H as [[_ ->] | [_ ->]]; constructor.
  - rewrite get_all_codes_effect. constructor.
  - rewrite get_user_stats_effect. constructor.
Qed.

Lemma change_keeps_references (d d' : database) :
  change d d' -> bound_to_stored_codes d -> bound_to_stored_codes d'.
Proof.
  intros Hch Hfk.
  destruct Hch as [|u c ci now Hu Hc Hgate|u now
    |d' new max admin now Hfree Hcodes Husers|c];
    unfold bound_to_stored_codes in *; cbn.
  - exact Hfk.
  - intros u' ui' H.
    assert (Hkeep : forall k, is_Some (codes d !! k) ->
              is_Some ((if code_is_admin ci then codes d
                        else alter mark_used c (codes d)) !! k)).
    { intros k [x Hx]. destruct (code_is_admin ci); [eauto|].
      destruct (decide (k = c)) as [->|Hne].
      - rewrite lookup_alter_eq, Hx. cbn. eauto.
      - rewrite lookup_alter_ne by congruence. eauto. }
    destruct (decide (u' = u)) as [->|Hne].
    + rewrite lookup_insert_eq in H. injection H as <-. cbn.
      apply Hkeep. eauto.
    + rewrite lookup_insert_ne in H by congruence. apply Hkeep. eauto.
  - intros u' ui' H. destruct (decide (u' = u)) as [->|Hne].
    + rewrite lookup_alter_eq in H.
      destruct (users d !! u) as [r|] eqn:Hr; [|discriminate].
      injection H as <-. cbn. eauto.
    + rewrite lookup_alter_ne in H by congruence. eauto.
  - intros u' ui' H. rewrite Husers in H. rewrite Hcodes.
    destruct (decide (user_code ui' ∈ new)); eauto.
  - intros u' ui' H. apply map_lookup_filter_Some in H as [H Hne]. cbn in Hne.
    rewrite lookup_delete_ne by congruence. eauto.
Qed.

Lemma change_keeps_admin_codes_unused (d d' : database) :
  change d d' -> admin_codes_unused d -> admin_codes_unused d'.
Proof.
  intros Hch Hinv.
  destruct Hch as [|u c ci now Hu Hc Hgate|u now
    |d' new max admin now Hfree Hcodes Husers|c];
    unfold admin_codes_unused in *; cbn.
  - exact Hinv.
  - intros c' ci' H Hadm. destruct (code_is_admin ci) eqn:Hci; [eauto|].
    destruct (decide (c' = c)) as [->|Hne].
    + rewrite lookup_alter_eq, Hc in H. injection H as <-.
      cbn in Hadm. congruence.
    + rewrite lookup_alter_ne in H by congruence. eauto.
  - exact Hinv.
  - intros c' ci' H Hadm. rewrite Hcodes in H.
    destruct (decide (c' ∈ new)); [injection H as <-; reflexivity|eauto].
  - intros c' ci' H Hadm. apply lookup_delete_Some in H as [_ H]. eauto.
Qed.

Lemma change_keeps_counts (d d' : database) :
  change d d' -> counts_not_negative d -> counts_not_negative d'.
Proof.
  intros Hch Hinv.
  destruct Hch as [|u c ci now Hu Hc Hgate|u now
    |d' new max admin now Hfree Hcodes Husers|c];
    unfold counts_not_negative in *; cbn.
  - exact Hinv.
  - intros u' ui' H. destruct (decide (u' = u)) as [->|Hne].
    + rewrite lookup_insert_eq in H. injection H as <-. cbn. lia.
    + rewrite lookup_insert_ne in H by congruence. eauto.
  - intros u' ui' H. destruct (decide (u' = u)) as [->|Hne].
    + rewrite lookup_alter_eq in H.
      destruct (users d !! u) as [r|] eqn:Hr; [|discriminate].
      injection H as <-. cbn. specialize (Hinv u r Hr). lia.
    + rewrite lookup_alter_ne in H by congruence. eauto.
  - intros u' ui' H. rewrite Husers in H. eauto.
  - intros u' ui' H. apply map_lookup_filter_Some in H as [H _]. eauto.
Qed.

Lemma change_keeps_single_use (d d' : database) :
  change d d' -> bound_to_stored_codes d -> single_use d -> single_use d'.
Proof.
  intros Hch Hfk Hinv.
  destruct Hch as [|u c ci now Hu Hc Hgate|u now
    |d' new max admin now Hfree Hcodes Husers|c];
    unfold single_use in *; cbn.
  - exact Hinv.
  - (* a new username is registered with code [c] *)
    assert (Hnew : forall u' r',
              <[u:=mk_user c 0 now]> (users d) !! u' = Some r' ->
              (u' = u /\ user_code r' = c) \/
              (u' <> u /\ users d !! u' = Some r')).
    { intros u' r' H. destruct (decide (u' = u)) as [->|Hne].
      - rewrite lookup_insert_eq in H. injection H as <-. auto.
      - rewrite lookup_insert_ne in H by congruence. auto. }
    intros c' ci' Hc' Hna.
    assert (Hold : exists ci0, codes d !! c' = Some ci0 /\
              code_is_admin ci0 = false /\
              (c' <> c -> is_used ci0 = is_used ci') /\
              (c' = c -> ci0 = ci /\ is_used ci' = true)).
    { destruct (code_is_admin ci) eqn:Hci.
      - exists ci'. split; [exact Hc'|]. split; [exact Hna|].
        split; [reflexivity|]. intros ->. rewrite Hc in Hc'.
        injection Hc' as <-. congruence.
      - destruct (decide (c' = c)) as [->|Hne].
        + rewrite lookup_alter_eq, Hc in Hc'. injection Hc' as <-.
          exists ci. split; [exact Hc|]. split; [exact Hci|].
          split; [congruence|]. intros _. split; reflexivity.
        + rewrite lookup_alter_ne in Hc' by congruence.
          exists ci'. split; [exact Hc'|]. split; [exact Hna|].
          split; [reflexivity|]. congruence. }
    destruct Hold as (ci0 & Hc0 & Hna0 & Hother & Hsame).
    destruct (Hinv c' ci0 Hc0 Hna0) as [Hone Hnone].
    assert (Hfresh : c' = c -> forall u' r', users d !! u' = Some r' ->
              user_code r' <> c).
    { intros -> u' r' Hr'. destruct (Hsame eq_refl) as [-> _].
      rewrite Hna0 in Hgate. cbn in Hgate. subst.
      apply (Hnone Hgate u' r' Hr'). }
    split.
    + intros u1 u2 r1 r2 H1 H2 E1 E2.
      destruct (Hnew _ _ H1) as [[-> Hc1]|[Hn1 Ho1]];
        destruct (Hnew _ _ H2) as [[-> Hc2]|[Hn2 Ho2]].
      * reflexivity.
      * exfalso. assert (c' = c) by congruence.
        apply (Hfresh H u2 r2 Ho2). congruence.
      * exfalso. assert (c' = c) by congruence.
        apply (Hfresh H u1 r1 Ho1). congruence.
      * eapply Hone; eauto.
    + intros Hunused u' r' H' E.
      destruct (decide (c' = c)) as [->|Hne].
      * destruct (Hsame eq_refl) as [_ Hused]. congruence.
      * destruct (Hnew _ _ H') as [[-> Hc1]|[Hn1 Ho1]]; [congruence|].
        rewrite <- Hother in Hunused by assumption.
        apply (Hnone Hunused u' r' Ho1 E).
  - (* a count is incremented *)
    assert (Hsame : forall u' r',
              alter (bump_usage now) u (users d) !! u' = Some r' ->
              exists r, users d !! u' = Some r /\ user_code r = user_code r').
    { intros u' r' H. destruct (decide (u' = u)) as [->|Hne].
      - rewrite lookup_alter_eq in H.
        destruct (users d !! u) as [r|]; [|discriminate].
        injection H as <-. eauto.
      - rewrite lookup_alter_ne in H by congruence. eauto. }
    intros c' ci' Hc' Hna. destruct (Hinv c' ci' Hc' Hna) as [Hone Hnone].
    split.
    + intros u1 u2 r1 r2 H1 H2 E1 E2.
      destruct (Hsame _ _ H1) as (o1 & Ho1 & Eo1).
      destruct (Hsame _ _ H2) as (o2 & Ho2 & Eo2).
      eapply Hone; eauto; congruence.
    + intros Hunused u' r' H' E. destruct (Hsame _ _ H') as (o & Ho & Eo).
      apply (Hnone Hunused u' o Ho). congruence.
  - (* codes are issued *)
    intros c' ci' Hc' Hna. rewrite Hcodes in Hc'. rewrite Husers.
    destruct (decide (c' ∈ new)) as [Hin|Hnin].
    + assert (Hnobody : forall u r, users d !! u = Some r -> user_code r <> c').
      { intros u r Hr E. destruct (Hfk u r Hr) as [x Hx].
        rewrite E, (Hfree c' Hin) in Hx. discriminate. }
      split.
      * intros u1 u2 r1 r2 H1 H2 E1 E2. exfalso. eapply Hnobody; eauto.
      * intros _. exact Hnobody.
    + apply (Hinv c' ci' Hc' Hna).
  - (* a code is deleted with its users *)
    intros c' ci' Hc' Hna. apply lookup_delete_Some in Hc' as [_ Hc'].
    destruct (Hinv c' ci' Hc' Hna) as [Hone Hnone]. split.
    + intros u1 u2 r1 r2 H1 H2 E1 E2.
      apply map_lookup_filter_Some in H1 as [H1 _].
      apply map_lookup_filter_Some in H2 as [H2 _]. eapply Hone; eauto.
    + intros Hunused u' r' H' E.
      apply map_lookup_filter_Some in H' as [H' _].
      apply (Hnone Hunused u' r' H' E).
Qed.

Lemma ledger_start_db (now : Z) :
  db (ledger_start now) =
  {| codes := {[ ADMIN_CODE := mk_code (-1) true false now ]};
     users := {[ ADMIN_USERNAME := mk_user ADMIN_CODE 0 now ]} |}.
Proof. reflexivity. Qed.

(** The ledger of a fresh database has all four properties. *)
Lemma ledger_start_sound (now : Z) :
  bound_to_stored_codes (db (ledger_start now)) /\
  admin_codes_unused (db (ledger_start now)) /\
  single_use (db (ledger_start now)) /\
  counts_not_negative (db (ledger_start now)).
Proof.
  rewrite ledger_start_db.
  unfold bound_to_stored_codes, admin_codes_unused, single_use,
    counts_not_negative.
  cbn [codes users]. split; [|split; [|split]].
  - intros u ui H. apply lookup_singleton_Some in H as [_ <-].
    cbn [user_code]. rewrite lookup_singleton_eq. eauto.
  - intros c ci H _. apply lookup_singleton_Some in H as [_ <-]. reflexivity.
  - intros c ci H Hna. apply lookup_singleton_Some in H as [_ <-].
    discriminate.
  - intros u ui H. apply lookup_singleton_Some in H as [_ <-].
    cbn [videos_used]. lia.
Qed.

Lemma run_calls_snoc (fault : nat -> option string) (draw : nat -> nat)
    (cs : list call) (c : call) (w : world) :
  run_calls fault draw (cs ++ [c]) w
    = perform fault draw c (run_calls fault draw cs w).
Proof. unfold run_calls. now rewrite foldl_app. Qed.

(** A property of the tables that every change keeps is kept by every
    sequence of calls. *)
Lemma run_calls_keep (P : database -> Prop) (fault : nat -> option string)
    (draw : nat -> nat) (cs : list call) (w : world) :
  (forall d d', change d d' -> P d -> P d') ->
  P (db w) -> P (db (run_calls fault draw cs w)).
Proof.
  intros Hstep H. induction cs as [|c cs IH] using rev_ind; [exact H|].
  rewrite run_calls_snoc. eapply Hstep; [apply perform_change | exact IH].
Qed.

(** X1. Referential integrity without a foreign-key check: if every user
    is bound to a stored code, then so it is after any sequence of calls,
    whatever the store does and whatever is drawn. *)
Theorem run_calls_keep_references (fault : nat -> option string)
    (draw : nat -> nat) (cs : list call) (w : world) :
  bound_to_stored_codes (db w) ->
  bound_to_stored_codes (db (run_calls fault draw cs w)).
Proof.
  apply (run_calls_keep bound_to_stored_codes).
  apply change_keeps_references.
Qed.

Lemma run_calls_keep_references_witness :
  bound_to_stored_codes
    (db (run_calls no_fault (fun i => 7 * i) busy_day (ledger_start 0))).
Proof.
  apply (run_calls_keep_references no_fault (fun i => 7 * i) busy_day
           (ledger_start 0)).
  apply ledger_start_sound.
Defined.

(** X2. Single use: if every user is bound to a stored code and every
    non-admin code has at most one user, and none while it is not marked
    used, then the same holds after any sequence of calls, whatever the store
    does and whatever is drawn. *)
Theorem run_calls_keep_single_use (fault : nat -> option string)
    (draw : nat -> nat) (cs : list call) (w : world) :
  bound_to_stored_codes (db w) ->
  single_use (db w) ->
  single_use (db (run_calls fault draw cs w)).
Proof.
  intros Hfk Hsu.
  apply (run_calls_keep
           (fun d => bound_to_stored_codes d /\ single_use d)); [|auto].
  intros d d' Hch [H1 H2]. split.
  - eapply change_keeps_references; eassumption.
  - eapply change_keeps_single_use; eassumption.
Qed.

Lemma run_calls_keep_single_use_witness :
  single_use
    (db (run_calls no_fault (fun i => 7 * i) busy_day (ledger_start 0))).
Proof.
  apply (run_calls_keep_single_use no_fault (fun i => 7 * i) busy_day
           (ledger_start 0)); apply ledger_start_sound.
Defined.

(** X3. No admin code is ever marked used: if none is, none is after any
    sequence of calls, whatever the store does and whatever is drawn. *)
Theorem run_calls_keep_admin_codes_unused (fault : nat -> option string)
    (draw : nat -> nat) (cs : list call) (w : world) :
  admin_codes_unused (db w) ->
  admin_codes_unused (db (run_calls fault draw cs w)).
Proof.
  apply (run_calls_keep admin_codes_unused).
  apply change_keeps_admin_codes_unused.
Qed.

Lemma run_calls_keep_admin_codes_unused_witness :
  admin_codes_unused
    (db (run_calls no_fault (fun i => 7 * i) busy_day (ledger_start 0))).
Proof.
  apply (run_calls_keep_admin_codes_unused no_fault (fun i => 7 * i) busy_day
           (ledger_start 0)); apply ledger_start_sound.
Defined.

(** X4. No count is ever negative: if none is, none is after any sequence
    of calls, whatever the store does and whatever is drawn. *)
Theorem run_calls_keep_counts_not_negative (fault : nat -> option string)
    (draw : nat -> nat) (cs : list call) (w : world) :
  counts_not_negative (db w) ->
  counts_not_negative (db (run_calls fault draw cs w)).
Proof.
  apply (run_calls_keep counts_not_negative).
  apply change_keeps_counts.
Qed.

Lemma run_calls_keep_counts_not_negative_witness :
  counts_not_negative
    (db (run_calls no_fault (fun i => 7 * i) busy_day (ledger_start 0))).
Proof.
  apply (run_calls_keep_counts_not_negative no_fault (fun i => 7 * i) busy_day
           (ledger_start 0)); apply ledger_start_sound.
Defined.

Lemma change_never_rewrites (d d' : database) :
  change d d' ->
  (forall u r r', users d !! u = Some r -> users d' !! u = Some r' ->
     user_code r' = user_code r /\
     (videos_used r <= videos_used r' <= videos_used r + 1)%Z) /\
  (forall k ci ci', codes d !! k = Some ci -> codes d' !! k = Some ci' ->
     max_videos ci' = max_videos ci /\
     code_is_admin ci' = code_is_admin ci /\
     created_at ci' = created_at ci /\
     (is_used ci = true -> is_used ci' = true)).
Proof.
  intros Hch.
  destruct Hch as [|u c ci now Hu Hc Hgate|u now
    |d' new max admin now Hfree Hcodes Husers|c];
    cbn.
  - split.
    + intros u r r' H H'. rewrite H in H'. injection H' as <-.
      split; [reflexivity|lia].
    + intros k ci ci' H H'. rewrite H in H'. injection H' as <-. auto.
  - split.
    + intros u' r r' H H'. destruct (decide (u' = u)) as [->|Hne];
        [congruence|].
      rewrite lookup_insert_ne in H' by congruence.
      rewrite H in H'. injection H' as <-.
      split; [reflexivity|lia].
    + intros k ci0 ci' H H'. destruct (code_is_admin ci).
      * rewrite H in H'. injection H' as <-. auto.
      * destruct (decide (k = c)) as [->|Hne].
        -- rewrite lookup_alter_eq, H in H'. injection H' as <-. cbn. auto.
        -- rewrite lookup_alter_ne in H' by congruence.
           rewrite H in H'. injection H' as <-. auto.
  - split.
    + intros u' r r' H H'. destruct (decide (u' = u)) as [->|Hne].
      * rewrite lookup_alter_eq, H in H'. injection H' as <-. cbn.
        split; [reflexivity|lia].
      * rewrite lookup_alter_ne in H' by congruence.
        rewrite H in H'. injection H' as <-.
      split; [reflexivity|lia].
    + intros k ci ci' H H'. rewrite H in H'. injection H' as <-. auto.
  - split.
    + intros u r r' H H'. rewrite Husers, H in H'. injection H' as <-.
      split; [reflexivity|lia].
    + intros k ci ci' H H'. rewrite Hcodes in H'.
      destruct (decide (k ∈ new)) as [Hin|_].
      * rewrite (Hfree k Hin) in H. discriminate.
      * rewrite H in H'. injection H' as <-. auto.
  - split.
    + intros u r r' H H'. apply map_lookup_filter_Some in H' as [H' _].
      rewrite H in H'. injection H' as <-.
      split; [reflexivity|lia].
    + intros k ci ci' H H'. apply lookup_delete_Some in H' as [_ H'].
      rewrite H in H'. injection H' as <-. auto.
Qed.

(** X5. What no call rewrites, whatever the store does and whatever is
    drawn: a username that is registered before and after a call is bound to
    the same code, and its count is the same or one more; a code that is
    stored before and after a call has the same limit, the same admin flag
    and the same creation time, and stays marked used if it was. *)
Theorem perform_never_rewrites (fault : nat -> option string)
    (draw : nat -> nat) (c : call) (w : world) :
  let d := db w in
  let d' := db (perform fault draw c w) in
  (forall u r r', users d !! u = Some r -> users d' !! u = Some r' ->
     user_code r' = user_code r /\
     (videos_used r <= videos_used r' <= videos_used r + 1)%Z) /\
  (forall k ci ci', codes d !! k = Some ci -> codes d' !! k = Some ci' ->
     max_videos ci' = max_videos ci /\
     code_is_admin ci' = code_is_admin ci /\
     created_at ci' = created_at ci /\
     (is_used ci = true -> is_used ci' = true)).
Proof. apply change_never_rewrites. apply perform_change. Qed.

(** X6. [delete_code] is atomic and cascades, whatever the store does.
    It reports [False] exactly when one of its four calls into the store
    (connect, the two deletions, commit) raises, and then the tables are as
    before.  Otherwise it reports [True], whether or not the code was
    stored: the code is no longer stored, the users that were bound to it
    are no longer registered, and every other code and every other user is
    as before. *)
Theorem delete_code_cascades_or_nothing (fault : nat -> option string)
    (code : string) (w : world) :
  let '(r, w') := delete_code fault code w in
  ((r = Return false /\ db w' = db w /\
    exists i, issued w <= i < issued w + 4 /\ is_Some (fault i)) \/
   (r = Return true /\
    (forall i, issued w <= i < issued w + 4 -> fault i = None) /\
    codes (db w') !! code = None /\
    (forall k, k <> code -> codes (db w') !! k = codes (db w) !! k) /\
    (forall u, users (db w') !! u =
       match users (db w) !! u with
       | Some ui => if decide (user_code ui = code) then None else Some ui
       | None => None
       end))) /\
  ((forall i, issued w <= i < issued w + 4 -> fault i = None) ->
   r = Return true).
Proof.
  assert (Hraised : forall i s, fault i = Some s ->
            issued w <= i < issued w + 4 ->
            exists i, issued w <= i < issued w + 4 /\ is_Some (fault i)).
  { intros i s Hi Hrange. exists i. split; [exact Hrange|]. rewrite Hi.
    eexists. reflexivity. }
  assert (Hnone : forall i s, fault i = Some s ->
            issued w <= i < issued w + 4 ->
            (forall i, issued w <= i < issued w + 4 -> fault i = None) ->
            @Return bool false = Return true).
  { intros i s Hi Hrange Hall. rewrite (Hall i Hrange) in Hi.
    discriminate. }
  unfold_ledger. cbn.
  destruct (fault (issued w)) eqn:F0; cbn.
  { split; [left; split; [reflexivity|]; split; [reflexivity|];
            apply (Hraised _ _ F0); lia|].
    apply (Hnone _ _ F0). lia. }
  destruct (fault (S (issued w))) eqn:F1; cbn.
  { split; [left; split; [reflexivity|]; split; [reflexivity|];
            apply (Hraised _ _ F1); lia|].
    apply (Hnone _ _ F1). lia. }
  destruct (fault (S (S (issued w)))) eqn:F2; cbn.
  { split; [left; split; [reflexivity|]; split; [reflexivity|];
            apply (Hraised _ _ F2); lia|].
    apply (Hnone _ _ F2). lia. }
  destruct (fault (S (S (S (issued w))))) eqn:F3; cbn.
  { split; [left; split; [reflexivity|]; split; [reflexivity|];
            apply (Hraised _ _ F3); lia|].
    apply (Hnone _ _ F3). lia. }
  split; [right|reflexivity].
  split; [reflexivity|]. split.
  { intros i Hi.
    assert (i = issued w \/ i = S (issued w) \/ i = S (S (issued w))
            \/ i = S (S (S (issued w)))) as [->|[->|[->| ->]]] by lia;
      assumption. }
  split; [apply lookup_delete_eq|].
  split; [intros k Hk; apply lookup_delete_ne; congruence|].
  intros u. destruct (users (db w) !! u) as [ui|] eqn:Hu.
  - destruct (decide (user_code ui = code)) as [He|Hne].
    + apply map_lookup_filter_None. right. intros x Hx. cbn.
      rewrite Hu in Hx. injection Hx as <-. tauto.
    + apply map_lookup_filter_Some. auto.
  - apply map_lookup_filter_None. left. exact Hu.
Qed.

Lemma delete_code_no_fault (code : string) (w : world) :
  delete_code no_fault code w =
  (Return true,
   {| db := {| codes := delete code (codes (db w));
               users := filter (fun kv => user_code kv.2 <> code)
                               (users (db w)) |};
      issued := issued w + 4; drawn := drawn w |}).
Proof. unfold_ledger. cbn. do 2 f_equal. lia. Qed.

(** X7. Revocation, on a store that raises no error: once [delete_code]
    has run, every validation with the deleted code is rejected with
    [InvalidCode]; a username that was bound to it is unknown, so it is no
    admin, and it can bind again, to any other code that would take a new
    username. *)
Theorem delete_code_revokes (code : string) (w : world) :
  let w1 := snd (delete_code no_fault code w) in
  (forall now u,
     fst (validate_user no_fault now u code w1)
       = Return (false, InvalidCode, 0%Z)) /\
  (forall u ui, users (db w) !! u = Some ui -> user_code ui = code ->
     users (db w1) !! u = None /\
     fst (is_admin no_fault u w1) = Return false /\
     forall now other ci, other <> code ->
       codes (db w) !! other = Some ci ->
       negb (code_is_admin ci) && is_used ci = false ->
       fst (validate_user no_fault now u other w1)
         = Return (true, "Welcome new user!",
                   if (0 <? max_videos ci)%Z then max_videos ci else (-1)%Z)).
Proof.
  rewrite delete_code_no_fault. cbn [snd]. split.
  - intros now u. rewrite validate_user_invalid; [reflexivity|].
    cbn. apply lookup_delete_eq.
  - intros u ui Hu Hcode.
    assert (Hgone : users (db {| db := {| codes := delete code (codes (db w));
                users := filter (fun kv => user_code kv.2 <> code)
                                (users (db w)) |};
                issued := issued w + 4; drawn := drawn w |}) !! u = None).
    { cbn. apply map_lookup_filter_None. right. intros x Hx. cbn.
      rewrite Hu in Hx. injection Hx as <-. tauto. }
    split; [exact Hgone|]. split.
    + rewrite is_admin_no_fault. rewrite Hgone. reflexivity.
    + intros now other ci Hne Hc Hgate.
      match goal with
      | |- context [validate_user no_fault now u other ?w1] =>
          pose proof (validate_user_new now u other w1 ci) as Hn;
          destruct (validate_user no_fault now u other w1) as [r w2]
      end.
      rewrite Hgate in Hn. apply Hn; [|exact Hgone].
      cbn. rewrite lookup_delete_ne by congruence. exact Hc.
Qed.

(** X8. Deleting is idempotent on a store that raises no error: a second
    [delete_code] of the same code leaves the tables as the first one left
    them; and when every user is bound to a stored code, deleting a code that
    is not stored changes nothing, whatever the store does. *)
Theorem delete_code_idempotent (code : string) (w : world) :
  db (snd (delete_code no_fault code (snd (delete_code no_fault code w))))
    = db (snd (delete_code no_fault code w)) /\
  (forall fault,
     bound_to_stored_codes (db w) -> codes (db w) !! code = None ->
     db (snd (delete_code fault code w)) = db w).
Proof.
  split.
  - rewrite !delete_code_no_fault. cbn. f_equal.
    + apply map_eq. intros k. destruct (decide (k = code)) as [->|Hne].
      * now rewrite !lookup_delete_eq.
      * now rewrite !lookup_delete_ne by congruence.
    + apply map_eq. intros u. apply option_eq. intros r.
      rewrite !map_lookup_filter_Some. tauto.
  - intros fault Hfk Hnone.
    pose proof (delete_code_effect fault code w) as H.
    destruct (delete_code fault code w) as [r w']. cbn [snd].
    destruct H as [[_ ->] | [_ ->]]; [reflexivity|]. cbn.
    unfold bound_to_stored_codes in Hfk.
    destruct (db w) as [cs us]. cbn in *. f_equal.
    + apply delete_id. exact Hnone.
    + apply map_eq. intros u. apply option_eq. intros r'.
      rewrite map_lookup_filter_Some. split; [tauto|].
      intros Hu. split; [exact Hu|]. cbn. intros E.
      destruct (Hfk u r' Hu) as [x Hx]. rewrite E, Hnone in Hx. discriminate.
Qed.

(** X9. [is_admin] fails closed and reads only: whatever the store does it
    writes nothing and raises nothing, and it answers [True] only for a
    username bound to a stored admin code; when the store raises no error
    during the call it answers [True] for every such username. *)
Theorem is_admin_fails_closed (fault : nat -> option string)
    (username : string) (w : world) :
  let '(r, w') := is_admin fault username w in
  let bound_to_admin_code :=
    exists ui ci, users (db w) !! username = Some ui /\
      codes (db w) !! user_code ui = Some ci /\ code_is_admin ci = true in
  db w' = db w /\
  exists answer, r = Return answer /\
    (answer = true -> bound_to_admin_code) /\
    (fault (issued w) = None -> fault (S (issued w)) = None ->
     bound_to_admin_code -> answer = true).
Proof.
  unfold_ledger. cbn.
  destruct (fault (issued w)) eqn:F0; cbn.
  { split; [reflexivity|]. exists false. repeat split; discriminate. }
  destruct (fault (S (issued w))) eqn:F1; cbn.
  { split; [reflexivity|]. exists false. repeat split; discriminate. }
  split; [reflexivity|].
  destruct (users (db w) !! username) as [ui|] eqn:Hu.
  - destruct (codes (db w) !! user_code ui) as [ci|] eqn:Hc.
    + exists (code_is_admin ci). split; [reflexivity|]. split.
      * intros Hadm. exists ui, ci. auto.
      * intros _ _ (ui' & ci' & Hu' & Hc' & Hadm).
        injection Hu' as <-. rewrite Hc in Hc'. injection Hc' as <-.
        exact Hadm.
    + exists false. split; [reflexivity|]. split; [discriminate|].
      intros _ _ (ui' & ci' & Hu' & Hc' & _).
      injection Hu' as <-. rewrite Hc in Hc'. discriminate.
  - exists false. split; [reflexivity|]. split; [discriminate|].
    intros _ _ (ui' & ci' & Hu' & _). discriminate.
Qed.

(** X10. [init_db], whatever the store does: it raises, because one of its
    six calls into the store raised, and the tables are as before; or it
    returns, and then the default admin code is stored and the default admin
    username is registered, each with the row it already had or else with
    its default row, and every other row is as before.  On a store that
    raises no error a second [init_db] changes nothing. *)
Theorem init_db_seeds_and_keeps (fault : nat -> option string) (now : Z)
    (w : world) :
  (let '(r, w') := init_db fault now w in
   match r with
   | Return _ =>
      codes (db w') !! ADMIN_CODE
        = Some (default (mk_code (-1) true false now)
                        (codes (db w) !! ADMIN_CODE)) /\
      (forall k, k <> ADMIN_CODE -> codes (db w') !! k = codes (db w) !! k) /\
      users (db w') !! ADMIN_USERNAME
        = Some (default (mk_user ADMIN_CODE 0 now)
                        (users (db w) !! ADMIN_USERNAME)) /\
      (forall u, u <> ADMIN_USERNAME ->
         users (db w') !! u = users (db w) !! u)
  | Raise _ =>
      db w' = db w /\
      exists i, issued w <= i < issued w + 6 /\ is_Some (fault i)
  | Hang => False
  end) /\
  forall later,
    db (snd (init_db no_fault later (snd (init_db no_fault now w))))
      = db (snd (init_db no_fault now w)).
Proof.
  split.
  - unfold init_db, create_table_if_not_exists. unfold_ledger. cbn.
    destruct (fault (issued w)) eqn:F0; cbn.
    { split; [reflexivity|]. exists (issued w). rewrite F0.
      split; [lia|eauto]. }
    destruct (fault (S (issued w))) eqn:F1; cbn.
    { split; [reflexivity|]. exists (S (issued w)). rewrite F1.
      split; [lia|eauto]. }
    destruct (fault (S (S (issued w)))) eqn:F2; cbn.
    { split; [reflexivity|]. exists (S (S (issued w))). rewrite F2.
      split; [lia|eauto]. }
    destruct (fault (S (S (S (issued w))))) eqn:F3; cbn.
    { split; [reflexivity|]. exists (S (S (S (issued w)))). rewrite F3.
      split; [lia|eauto]. }
    destruct (codes (db w) !! ADMIN_CODE) as [ci|] eqn:Hc; cbn;
      (destruct (fault (S (S (S (S (issued w)))))) eqn:F4; cbn;
       [split; [reflexivity|]; exists (S (S (S (S (issued w)))));
        rewrite F4; split; [lia|eauto] |]);
      (destruct (users (db w) !! ADMIN_USERNAME) as [ui|] eqn:Hu; cbn;
       (destruct (fault (S (S (S (S (S (issued w))))))) eqn:F5; cbn;
        [split; [reflexivity|]; exists (S (S (S (S (S (issued w))))));
         rewrite F5; split; [lia|eauto] |])).
    + auto.
    + split; [exact Hc|]. split; [auto|].
      split; [apply lookup_insert_eq|].
      intros u Hne. apply lookup_insert_ne. congruence.
    + split; [apply lookup_insert_eq|].
      split; [intros k Hne; apply lookup_insert_ne; congruence|]. auto.
    + split; [apply lookup_insert_eq|].
      split; [intros k Hne; apply lookup_insert_ne; congruence|].
      split; [apply lookup_insert_eq|].
      intros u Hne. apply lookup_insert_ne. congruence.
  - intros later. unfold init_db, create_table_if_not_exists. unfold_ledger.
    cbn.
    destruct (codes (db w) !! ADMIN_CODE) as [ci|] eqn:Hc; cbn;
      destruct (users (db w) !! ADMIN_USERNAME) as [ui|] eqn:Hu; cbn;
      rewrite ?Hc, ?Hu, ?lookup_insert_eq; cbn;
      rewrite ?Hc, ?Hu, ?lookup_insert_eq; reflexivity.
Qed.

(** X11. Issue, then redeem, on a store that raises no error.  A non-admin
    code that [create_code] has just issued takes the first username that is
    not registered, reporting its limit as what remains (or -1 for a limit
    that is not positive), and turns the next such username away with
    [CodeAlreadyConsumed]; an admin code takes the second username too. *)
Theorem create_code_then_validate (draw : nat -> nat) (fuel : nat)
    (now : Z) (prefix : string) (max : Z) (admin : bool) (w w1 : world)
    (code first second : string) (t1 t2 : Z) :
  create_code no_fault draw fuel now prefix max admin w
    = (Return (true, code), w1) ->
  users (db w) !! first = None ->
  users (db w) !! second = None ->
  first <> second ->
  let remaining := if (0 <? max)%Z then max else (-1)%Z in
  let '(r1, w2) := validate_user no_fault t1 first code w1 in
  let '(r2, w3) := validate_user no_fault t2 second code w2 in
  r1 = Return (true, "Welcome new user!", remaining) /\
  users (db w2) !! first = Some (mk_user code 0 t1) /\
  r2 = (if admin then Return (true, "Welcome new user!", remaining)
        else Return (false, CodeAlreadyConsumed, 0%Z)) /\
  users (db w3) !! second
    = (if admin then Some (mk_user code 0 t2) else None).
Proof.
  intros Hcreate Hu1 Hu2 Hne remaining.
  pose proof (create_code_outcome no_fault draw fuel now prefix max admin w)
    as Hout.
  rewrite Hcreate in Hout. destruct Hout as (_ & Hfree & Hdb1 & _).
  assert (Hc1 : codes (db w1) !! code = Some (mk_code max admin false now))
    by (rewrite Hdb1; apply lookup_insert_eq).
  assert (Hus1 : users (db w1) = users (db w)) by (now rewrite Hdb1).
  pose proof (validate_user_new t1 first code w1 _ Hc1) as Hn1.
  destruct (validate_user no_fault t1 first code w1) as [r1 w2].
  cbn [code_is_admin is_used max_videos] in Hn1.
  rewrite andb_false_r in Hn1.
  destruct Hn1 as [Hr1 Hdb2]; [rewrite Hus1; exact Hu1|].
  assert (Hfirst : users (db w2) !! first = Some (mk_user code 0 t1))
    by (rewrite Hdb2; apply lookup_insert_eq).
  assert (Hsecond : users (db w2) !! second = None).
  { rewrite Hdb2. cbn. rewrite lookup_insert_ne by congruence.
    rewrite Hus1. exact Hu2. }
  destruct admin.
  - assert (Hc2 : codes (db w2) !! code = Some (mk_code max true false now))
      by (rewrite Hdb2; exact Hc1).
    pose proof (validate_user_new t2 second code w2 _ Hc2 Hsecond) as Hn2.
    destruct (validate_user no_fault t2 second code w2) as [r2 w3].
    cbn in Hn2. destruct Hn2 as [Hr2 Hdb3].
    repeat split; try assumption.
    rewrite Hdb3. apply lookup_insert_eq.
  - assert (Hc2 : codes (db w2) !! code
                    = Some (mark_used (mk_code max false false now))).
    { rewrite Hdb2. cbn. rewrite lookup_alter_eq, Hc1. reflexivity. }
    pose proof (validate_user_new t2 second code w2 _ Hc2 Hsecond) as Hn2.
    destruct (validate_user no_fault t2 second code w2) as [r2 w3].
    cbn in Hn2. destruct Hn2 as [Hr2 Hdb3].
    repeat split; try assumption. rewrite Hdb3. exact Hsecond.
Qed.

Lemma create_code_then_validate_witness :
  let '(r1, w2) :=
    validate_user no_fault 11 "bob" "MK_AHOV29"
      (snd (create_code no_fault (fun i => 7 * i) 3 10 "MK" 2 false
              ledger_taken)) in
  let '(r2, w3) := validate_user no_fault 12 "eve" "MK_AHOV29" w2 in
  r1 = Return (true, "Welcome new user!", 2%Z) /\
  users (db w2) !! "bob" = Some (mk_user "MK_AHOV29" 0 11) /\
  r2 = Return (false, CodeAlreadyConsumed, 0%Z) /\
  users (db w3) !! "eve" = None.
Proof.
  apply (create_code_then_validate (fun i => 7 * i) 3 10 "MK" 2 false
           ledger_taken
           (snd (create_code no_fault (fun i => 7 * i) 3 10 "MK" 2 false
                   ledger_taken))
           "MK_AHOV29" "bob" "eve" 11 12);
    vm_compute; (reflexivity || discriminate).
Defined.

(** * Properties of the reports *)

Lemma sum_indicator_one {A : Type} (l : list (string * A)) (k : string)
    (v : A) :
  NoDup (l.*1) -> (k, v) ∈ l ->
  sum_list_with (fun kv : string * A => if decide (k = kv.1) then 1 else 0) l
    = 1.
Proof.
  induction l as [|[k' v'] l IH]; intros Hnd Hin; [inversion Hin|].
  cbn in Hnd. apply NoDup_cons in Hnd as [Hnotin Hnd]. cbn.
  apply elem_of_cons in Hin as [Heq|Hin].
  - injection Heq as -> ->. rewrite decide_True by reflexivity.
    f_equal. clear IH Hnd. induction l as [|[k2 v2] l IH]; [reflexivity|].
    cbn. rewrite decide_False.
    + apply IH. intros Hin. apply Hnotin. cbn. apply elem_of_cons. auto.
    + intros ->. apply Hnotin. cbn. apply elem_of_cons. auto.
  - rewrite decide_False.
    + apply IH; assumption.
    + intros ->. apply Hnotin. apply list_elem_of_fmap.
      exists (k', v). auto.
Qed.

(** Every user is counted with exactly one code. *)
Lemma user_counts_add_up (l : list (string * code_row))
    (us : gmap string user_row) :
  NoDup (l.*1) ->
  (forall u r, us !! u = Some r -> exists ci, (user_code r, ci) ∈ l) ->
  sum_list_with (fun kv : string * code_row => size (users_of kv.1 us)) l
    = size us.
Proof.
  intros Hnd. induction us as [|u r us Hfresh IH] using map_ind; intros Hfk.
  - rewrite map_size_empty. clear Hnd Hfk.
    induction l as [|kv l IHl]; [reflexivity|].
    cbn. unfold users_of at 1. rewrite map_filter_empty, map_size_empty.
    exact IHl.
  - rewrite map_size_insert_None by assumption.
    destruct (Hfk u r) as [ci Hci]; [apply lookup_insert_eq|].
    rewrite <- IH.
    2: { intros u' r' H'. apply (Hfk u' r').
         rewrite lookup_insert_ne; [exact H'|]. intros ->. congruence. }
    pose proof (sum_indicator_one l (user_code r) ci Hnd Hci) as Hone.
    assert (Hsplit :
      sum_list_with (fun kv : string * code_row =>
                       size (users_of kv.1 (<[u:=r]> us))) l
      = sum_list_with (fun kv : string * code_row =>
                         if decide (user_code r = kv.1) then 1 else 0) l
        + sum_list_with (fun kv : string * code_row =>
                           size (users_of kv.1 us)) l); [|lia].
    clear Hnd Hfk Hci IH Hone. induction l as [|[k v] l IHl]; [reflexivity|].
    cbn [sum_list_with fst]. rewrite IHl.
    assert (size (users_of k (<[u:=r]> us))
            = (if decide (user_code r = k) then 1 else 0)
              + size (users_of k us)) as ->; [|lia].
    unfold users_of. rewrite map_filter_insert. cbn.
    destruct (decide (user_code r = k)) as [Heq|Hne].
    + rewrite map_size_insert_None; [reflexivity|].
      apply map_lookup_filter_None. auto.
    + rewrite delete_id by assumption. reflexivity.
Qed.

(** X12. [get_all_codes] reads only and raises nothing, whatever the store
    does.  When one of its two calls into the store (connect, the query)
    raises, the report is empty.  When neither raises, the report has
    exactly one row for each stored code, with the columns of the code and
    the number of users bound to it; and when every user is bound to a
    stored code, the user counts of the rows add up to the number of
    users. *)
Theorem get_all_codes_reports_every_code (fault : nat -> option string)
    (w : world) :
  let '(r, w') := get_all_codes fault w in
  db w' = db w /\
  exists rows, r = Return rows /\
    (is_Some (fault (issued w)) \/ is_Some (fault (S (issued w))) ->
     rows = []) /\
    (fault (issued w) = None -> fault (S (issued w)) = None ->
     rows = code_group (users (db w)) <$> map_to_list (codes (db w)) /\
     (forall row, row ∈ rows <->
        exists c ci, codes (db w) !! c = Some ci /\
          row = code_group (users (db w)) (c, ci)) /\
     NoDup (report_code <$> rows) /\
     length rows = size (codes (db w)) /\
     (bound_to_stored_codes (db w) ->
      sum_list_with user_count rows = size (users (db w)))).
Proof.
  unfold get_all_codes. unfold_ledger. cbn.
  destruct (fault (issued w)) eqn:F0; cbn.
  { split; [reflexivity|]. exists []. split; [reflexivity|].
    split; [reflexivity|discriminate]. }
  destruct (fault (S (issued w))) eqn:F1; cbn.
  { split; [reflexivity|]. exists []. split; [reflexivity|].
    split; [reflexivity|discriminate]. }
  split; [reflexivity|]. eexists. split; [reflexivity|].
  split; [intros [[x Hx]|[x Hx]]; discriminate|]. intros _ _.
  change (map (code_group (users (db w))) (map_to_list (codes (db w))))
    with (code_group (users (db w)) <$> map_to_list (codes (db w))).
  split; [reflexivity|]. split; [|split; [|split]].
  - intros row. rewrite list_elem_of_fmap. split.
    + intros ([c ci] & -> & Hin). apply elem_of_map_to_list in Hin. eauto.
    + intros (c & ci & Hc & ->). exists (c, ci).
      split; [reflexivity|]. now apply elem_of_map_to_list.
  - rewrite <- list_fmap_compose.
    apply (NoDup_fst_map_to_list (codes (db w))).
  - rewrite length_fmap. apply length_map_to_list.
  - intros Hfk.
    rewrite <- (user_counts_add_up (map_to_list (codes (db w)))
                  (users (db w)) (NoDup_fst_map_to_list _)).
    + generalize (map_to_list (codes (db w))). intros l.
      induction l as [|kv l IH]; [reflexivity|]. cbn. now rewrite IH.
    + intros u r Hu. destruct (Hfk u r Hu) as [ci Hci]. exists ci.
      now apply elem_of_map_to_list.
Qed.

Lemma omap_all_some {A B : Type} (f : A -> option B) (l : list A) :
  (forall x, x ∈ l -> is_Some (f x)) -> length (omap f l) = length l.
Proof.
  induction l as [|x l IH]; intros H; [reflexivity|]. cbn.
  destruct (H x) as [y Hy]; [apply elem_of_cons; auto|]. rewrite Hy. cbn.
  f_equal. apply IH. intros z Hz. apply H. apply elem_of_cons. auto.
Qed.

(** X13. [get_user_stats] reads only and raises nothing, whatever the
    store does.  When one of its two calls into the store (connect, the
    query) raises, the report is empty.  When neither raises, the report has
    a row for exactly the users whose code is stored and, when a code that
    is not the empty string is given, equal to that code; the empty string
    selects like no code at all; and when every user is bound to a stored
    code the report without a code lists every user. *)
Theorem get_user_stats_reports_bound_users (fault : nat -> option string)
    (code : option string) (w : world) :
  let '(r, w') := get_user_stats fault code w in
  let selected :=
    match code with
    | Some c => if decide (c = "") then None else Some c
    | None => None
    end in
  db w' = db w /\
  get_user_stats fault (Some "") w = get_user_stats fault None w /\
  exists rows, r = Return rows /\
    (is_Some (fault (issued w)) \/ is_Some (fault (S (issued w))) ->
     rows = []) /\
    (fault (issued w) = None -> fault (S (issued w)) = None ->
     rows = omap (user_join (codes (db w)) selected)
              (map_to_list (users (db w))) /\
     (forall row, row ∈ rows <->
        exists u ui ci, users (db w) !! u = Some ui /\
          codes (db w) !! user_code ui = Some ci /\
          (forall c, code = Some c -> c <> "" -> user_code ui = c) /\
          row = mk_user_report u (user_code ui) (videos_used ui)
                  (max_videos ci) (last_used ui)) /\
     (bound_to_stored_codes (db w) -> code = None ->
      length rows = size (users (db w)))).
Proof.
  unfold get_user_stats. unfold_ledger. cbn.
  destruct (fault (issued w)) eqn:F0; cbn.
  { split; [reflexivity|]. split; [reflexivity|]. exists [].
    split; [reflexivity|]. split; [reflexivity|discriminate]. }
  destruct (fault (S (issued w))) eqn:F1; cbn.
  { split; [reflexivity|]. split; [reflexivity|]. exists [].
    split; [reflexivity|]. split; [reflexivity|discriminate]. }
  split; [reflexivity|]. split; [reflexivity|].
  eexists. split; [reflexivity|].
  split; [intros [[x Hx]|[x Hx]]; discriminate|]. intros _ _.
  split; [reflexivity|]. split.
  - intros row. rewrite list_elem_of_omap. split.
    + intros ([u ui] & Hin & Hjoin). apply elem_of_map_to_list in Hin.
      unfold user_join in Hjoin. cbn in Hjoin.
      destruct (codes (db w) !! user_code ui) as [ci|] eqn:Hc; [|discriminate].
      exists u, ui, ci. split; [exact Hin|]. split; [exact Hc|].
      destruct code as [c|].
      * destruct (decide (c = "")) as [->|Hne]; cbn in Hjoin.
        -- injection Hjoin as <-. split; [|reflexivity].
           intros c Hc' Hne'. congruence.
        -- destruct (decide (user_code ui = c)); [|discriminate].
           injection Hjoin as <-. split; [|reflexivity].
           intros c' Hc' _. congruence.
      * cbn in Hjoin. injection Hjoin as <-. split; [|reflexivity].
        discriminate.
    + intros (u & ui & ci & Hu & Hc & Hsel & ->). exists (u, ui).
      split; [now apply elem_of_map_to_list|].
      unfold user_join. cbn. rewrite Hc.
      destruct code as [c|]; [|reflexivity].
      destruct (decide (c = "")) as [->|Hne]; cbn; [reflexivity|].
      rewrite decide_True by (apply (Hsel c); auto). reflexivity.
  - intros Hfk ->. rewrite omap_all_some; [apply length_map_to_list|].
    intros [u ui] Hin. apply elem_of_map_to_list in Hin.
    destruct (Hfk u ui Hin) as [ci Hci]. unfold user_join. cbn.
    rewrite Hci. eauto.
Qed.

(** * Further properties of the session and of the orchestrator *)






Ltac rejected :=
  do 3 eexists; split; [reflexivity|];
  split; [intros _; reflexivity | discriminate].

(** The verdict of a validation, whatever the store does: a rejection
    writes nothing; an acceptance leaves the username bound to the code. *)
Lemma validate_user_verdict (fault : nat -> option string) (now : Z)
    (username code : string) (w : world) :
  let '(r, w') := validate_user fault now username code w in
  exists valid msg remaining, r = Return (valid, msg, remaining) /\
    (valid = false -> db w' = db w) /\
    (valid = true ->
     exists ui ci, users (db w') !! username = Some ui /\
       user_code ui = code /\
       codes (db w') !! code = Some ci /\
       remaining = (if (0 <? max_videos ci)%Z
                    then (max_videos ci - videos_used ui)%Z else (-1)%Z)).
Proof.
  unfold_ledger. cbn.
  fault_step; [rejected|].
  fault_step; [rejected|].
  destruct (codes (db w) !! code) as [ci|] eqn:Hc; cbn;
    [|rejected].
  fault_step; [rejected|].
  destruct (users (db w) !! username) as [ui|] eqn:Hu; cbn.
  { destruct (decide (user_code ui <> code)) as [Hne|Heq]; cbn;
      [rejected|].
    destruct (negb (code_is_admin ci) && (max_videos ci <=? videos_used ui)%Z);
      cbn; [rejected|].
    do 3 eexists. split; [reflexivity|]. split; [discriminate|].
    intros _. exists ui, ci. split; [exact Hu|].
    split; [destruct (decide (user_code ui = code)); tauto|].
    split; [exact Hc|reflexivity]. }
  destruct (negb (code_is_admin ci) && is_used ci) eqn:Hgate; cbn;
    [rejected|].
  fault_step; [rejected|].
  rewrite Hu. cbn.
  destruct (code_is_admin ci) eqn:Hadm; cbn.
  - fault_step; [rejected|].
    do 3 eexists. split; [reflexivity|]. split; [discriminate|].
    intros _. exists (mk_user code 0 now), ci. cbn.
    split; [apply lookup_insert_eq|]. split; [reflexivity|].
    split; [exact Hc|]. now rewrite Z.sub_0_r.
  - fault_step; [rejected|].
    fault_step; [rejected|].
    do 3 eexists. split; [reflexivity|]. split; [discriminate|].
    intros _. exists (mk_user code 0 now), (mark_used ci). cbn.
    split; [apply lookup_insert_eq|]. split; [reflexivity|].
    split; [rewrite lookup_alter_eq, Hc; reflexivity|].
    now rewrite Z.sub_0_r.
Qed.

Lemma is_admin_answer (fault : nat -> option string) (username : string)
    (w : world) :
  let '(r, w') := is_admin fault username w in
  db w' = db w /\
  exists answer, r = Return answer /\
    (answer = true ->
     exists ui ci, users (db w) !! username = Some ui /\
       codes (db w) !! user_code ui = Some ci /\ code_is_admin ci = true).
Proof.
  unfold_ledger. cbn.
  fault_step;
    [split; [reflexivity|]; exists false;
     split; [reflexivity|discriminate]|].
  fault_step;
    [split; [reflexivity|]; exists false;
     split; [reflexivity|discriminate]|].
  split; [reflexivity|].
  destruct (users (db w) !! username) as [ui|] eqn:Hu;
    [|exists false; split; [reflexivity|discriminate]].
  destruct (codes (db w) !! user_code ui) as [ci|] eqn:Hc;
    [|exists false; split; [reflexivity|discriminate]].
  exists (code_is_admin ci). split; [reflexivity|]. eauto.
Qed.

(** X15. No login without a binding, whatever the store does.  The login
    form either shows an error and leaves the session and the tables as they
    were, or shows a success and opens the session for the username entered;
    in that case the ledger has the username bound to the code entered, the
    session holds what the ledger leaves to it (or -1 for a limit that is not
    positive), and the session is an admin session only if the code is an
    admin code. *)
Theorem submit_login_opens_bound_sessions (fault : nat -> option string)
    (form_username form_code : string) (a : app) :
  let a' := submit_login fault form_username form_code a in
  (session a' = session a /\ db (ledger a') = db (ledger a) /\
   exists msg, trace a' = trace a ++ [Shown ERROR msg]) \/
  (authenticated (session a') = true /\
   username (session a') = Some form_username /\
   (exists msg, trace a' = trace a ++ [Shown SUCCESS msg]) /\
   exists ui ci,
     users (db (ledger a')) !! form_username = Some ui /\
     user_code ui = form_code /\
     codes (db (ledger a')) !! form_code = Some ci /\
     remaining_videos (session a')
       = (if (0 <? max_videos ci)%Z
          then (max_videos ci - videos_used ui)%Z else (-1)%Z) /\
     (session_is_admin (session a') = true -> code_is_admin ci = true)).
Proof.
  cbv zeta. unfold submit_login.
  pose proof (validate_user_verdict fault (clock a) form_username form_code
                (ledger a)) as Hv.
  destruct (validate_user fault (clock a) form_username form_code (ledger a))
    as [r w1].
  destruct Hv as (valid & msg & remaining & -> & Hrej & Hacc).
  destruct valid.
  - right. destruct (Hacc eq_refl) as (ui & ci & Hu & Hcode & Hc & Hrem).
    unfold login. cbn [ledger emit with_session].
    pose proof (is_admin_answer fault form_username w1) as Ha.
    destruct (is_admin fault form_username w1) as [ra w2].
    destruct Ha as (Hdb & answer & -> & Hans). cbn.
    split; [reflexivity|]. split; [reflexivity|]. split; [eauto|].
    exists ui, ci. rewrite Hdb.
    split; [exact Hu|]. split; [exact Hcode|]. split; [exact Hc|].
    split; [exact Hrem|].
    intros Htrue. destruct (Hans Htrue) as (ui' & ci' & Hu' & Hc' & Hadm).
    rewrite Hu in Hu'. injection Hu' as <-. rewrite Hcode, Hc in Hc'.
    injection Hc' as <-. exact Hadm.
  - left. cbn. split; [reflexivity|]. split; [apply Hrej; reflexivity|].
    eauto.
Qed.

Lemma update_video_usage_steps (fault : nat -> option string) (a : app) :
  session_is_admin (session a) = false ->
  forall u, username (session a) = Some u ->
  (session (update_video_usage fault a) = session a /\
   db (ledger (update_video_usage fault a)) = db (ledger a) /\
   trace (update_video_usage fault a)
     = trace a ++ [Shown ERROR "Failed to update video usage"]) \/
  (session (update_video_usage fault a)
     = set_remaining_videos (remaining_videos (session a) - 1) (session a) /\
   db (ledger (update_video_usage fault a))
     = {| codes := codes (db (ledger a));
          users := alter (bump_usage (clock a)) u (users (db (ledger a))) |} /\
   trace (update_video_usage fault a) = trace a).
Proof.
  intros Hna u Hu. unfold update_video_usage, increment_usage_of.
  rewrite Hna, Hu. cbn [negb].
  pose proof (increment_usage_effect fault (clock a) u (ledger a)) as H.
  destruct (increment_usage fault (clock a) u (ledger a)) as [r w'].
  destruct H as [[-> Hdb] | [-> Hdb]]; [left|right]; cbn; auto.
Qed.

(** X16. The count of the session follows the ledger.  A login that
    changes the session (an accepted one), on a store that raises no error
    and with a code whose limit is positive, leaves in the session exactly
    what the ledger leaves to the user; and [update_video_usage] keeps it
    so whatever the store does: either the ledger counts one more video
    and the session one less, or the store raised, an error is shown and
    neither changes. *)
Theorem session_count_follows_ledger :
  (forall form_username form_code a ci,
     codes (db (ledger a)) !! form_code = Some ci ->
     (0 < max_videos ci)%Z ->
     session a <> session (submit_login no_fault form_username form_code a) ->
     in_sync (submit_login no_fault form_username form_code a)) /\
  (forall fault a, in_sync a -> in_sync (update_video_usage fault a)).
Proof.
  split.
  - intros u c a ci Hc Hmax Hchanged.
    pose proof (validate_user_effect no_fault (clock a) u c (ledger a)) as He.
    pose proof (validate_user_verdict no_fault (clock a) u c (ledger a)) as Hv.
    unfold submit_login in *.
    destruct (validate_user no_fault (clock a) u c (ledger a)) as [r w1].
    destruct Hv as (valid & msg & remaining & -> & Hrej & Hacc).
    destruct valid; [|exfalso; apply Hchanged; reflexivity].
    destruct (Hacc eq_refl) as (ui & ci' & Hu & Hcode & Hc' & Hrem).
    assert (Hmax' : max_videos ci' = max_videos ci).
    { destruct He as [Hsame | (_ & ci0 & Hc0 & _ & _ & _ & Hcodes)].
      - rewrite Hsame, Hc in Hc'. now injection Hc' as <-.
      - rewrite Hc in Hc0. injection Hc0 as <-. rewrite Hcodes in Hc'.
        destruct (code_is_admin ci).
        + rewrite Hc in Hc'. now injection Hc' as <-.
        + rewrite lookup_alter_eq, Hc in Hc'. now injection Hc' as <-. }
    unfold login. cbn [ledger emit with_session].
    rewrite is_admin_no_fault. cbn.
    exists u, ui, ci'. cbn. rewrite Hu, Hcode, Hc'.
    repeat split; try reflexivity. rewrite Hrem, Hmax'.
    destruct (Z.ltb_spec 0 (max_videos ci)); [reflexivity|lia].
  - intros fault a (u & ui & ci & Hu & Hui & Hc & Hadm & Hrem).
    destruct (session_is_admin (session a)) eqn:Hflag.
    { unfold update_video_usage. rewrite Hflag. cbn.
      exists u, ui, ci. rewrite Hflag. auto. }
    destruct (update_video_usage_steps fault a Hflag u Hu)
      as [(Hs & Hd & _) | (Hs & Hd & _)].
    + exists u, ui, ci. rewrite Hs, Hd, Hflag. auto.
    + exists u, (bump_usage (clock a) ui), ci. rewrite Hs, Hd.
      cbn [username session_is_admin remaining_videos set_remaining_videos
           users codes user_code videos_used bump_usage].
      rewrite lookup_alter_eq, Hui.
      split; [exact Hu|]. split; [reflexivity|]. split; [exact Hc|].
      split; [congruence|]. lia.
Qed.

(** X17. The gate of the session and the gate of the ledger, for a
    logged-in user whose session count is not negative and is what the
    ledger leaves to it.  When the admin flag of the session is the admin
    flag of the user's code, [check_video_limit] refuses exactly when a
    validation of the user with its code would be rejected with
    [LimitExceeded].  When the flag is not set although the code is an admin
    code (the session of a login during which a call of [is_admin] into the
    store raised), the two gates disagree at a count of 0:
    [check_video_limit] refuses and the validation is accepted. *)
Theorem check_video_limit_agrees_with_ledger (a : app) (u : string)
    (ui : user_row) (ci : code_row) (now : Z) :
  username (session a) = Some u ->
  users (db (ledger a)) !! u = Some ui ->
  codes (db (ledger a)) !! user_code ui = Some ci ->
  remaining_videos (session a) = (max_videos ci - videos_used ui)%Z ->
  (0 <= remaining_videos (session a))%Z ->
  (session_is_admin (session a) = code_is_admin ci ->
   (fst (check_video_limit a) = false <->
    fst (validate_user no_fault now u (user_code ui) (ledger a))
      = Return (false, LimitExceeded, 0%Z))) /\
  (session_is_admin (session a) = false ->
   code_is_admin ci = true ->
   remaining_videos (session a) = 0%Z ->
   fst (check_video_limit a) = false /\
   fst (validate_user no_fault now u (user_code ui) (ledger a))
     = Return (true, "Welcome back!",
               if (0 <? max_videos ci)%Z then 0%Z else (-1)%Z)).
Proof.
  intros Hu Hui Hc Hrem Hpos.
  rewrite (validate_user_known now u _ (ledger a) ci ui Hc Hui).
  destruct (decide (user_code ui <> user_code ui)) as [Hne|_]; [congruence|].
  unfold check_video_limit. split.
  - intros Hadm. rewrite Hadm, Hrem. cbn [fst].
    destruct (code_is_admin ci); cbn [negb andb].
    + split; [discriminate|]. unfold LimitExceeded. congruence.
    + destruct (Z.eqb_spec (max_videos ci - videos_used ui) 0);
        destruct (Z.leb_spec (max_videos ci) (videos_used ui)); cbn;
        try lia; split; try reflexivity; try discriminate;
        unfold LimitExceeded; congruence.
  - intros Hflag Hadm Hzero. rewrite Hflag, Hzero, Hadm. cbn.
    split; [reflexivity|]. rewrite <- Hrem, Hzero. reflexivity.
Qed.

(** The session of [bob], where the flags agree, and the session of [amy],
    where they do not. *)
Lemma check_video_limit_agrees_with_ledger_witness :
  (fst (check_video_limit app_bob) = false <->
   fst (validate_user no_fault 30 "bob" "MK_ABC123" (ledger app_bob))
     = Return (false, LimitExceeded, 0%Z)) /\
  session_is_admin (session app_amy) = false /\
  remaining_videos (session app_amy) = 0%Z /\
  fst (check_video_limit app_amy) = false /\
  fst (validate_user no_fault 30 "amy" "AD_TEAM01" (ledger app_amy))
    = Return (true, "Welcome back!", 0%Z).
Proof.
  split; [|split; [reflexivity|split; [reflexivity|]]].
  - refine (proj1 (check_video_limit_agrees_with_ledger app_bob "bob"
                     (mk_user "MK_ABC123" 0 0) (mk_code 2 false true 0) 30
                     _ _ _ _ _) _);
      vm_compute; (reflexivity || discriminate).
  - refine (proj2 (check_video_limit_agrees_with_ledger app_amy "amy"
                     (mk_user "AD_TEAM01" 3 0) (mk_code 3 true false 0) 30
                     _ _ _ _ _) _ _ _);
      vm_compute; (reflexivity || discriminate).
Defined.

(** X18. [update_video_usage] never looks at the limit, and
    [check_video_limit] refuses only at exactly 0: a session whose count is
    negative is let through before and after any number of recorded videos,
    whatever the store does.  This is the session of a user who logged in
    with a code whose limit is not positive (the count is then -1). *)
Theorem negative_count_is_never_refused (fault : nat -> option string)
    (a : app) (n : nat) :
  (remaining_videos (session a) < 0)%Z ->
  let a' := Nat.iter n (update_video_usage fault) a in
  (remaining_videos (session a') <= remaining_videos (session a))%Z /\
  fst (check_video_limit a') = true /\
  trace (snd (check_video_limit a')) = trace a'.
Proof.
  intros Hneg. cbv zeta.
  assert (Hstep : forall b,
            (remaining_videos (session (update_video_usage fault b))
             <= remaining_videos (session b))%Z).
  { intros b. unfold update_video_usage.
    destruct (session_is_admin (session b)); cbn [negb]; [lia|].
    destruct (increment_usage_of fault (username (session b)) (clock b)
                (ledger b)) as [r w'].
    destruct r as [[|]|e|]; cbn; lia. }
  assert (Hle : (remaining_videos
                   (session (Nat.iter n (update_video_usage fault) a))
                 <= remaining_videos (session a))%Z).
  { induction n as [|n IH]; [cbn; lia|]. rewrite Nat.iter_succ.
    specialize (Hstep (Nat.iter n (update_video_usage fault) a)). lia. }
  split; [exact Hle|].
  unfold check_video_limit.
  destruct (Z.eqb_spec
              (remaining_videos
                 (session (Nat.iter n (update_video_usage fault) a)))
              0) as [E|_]; [lia|].
  rewrite andb_false_r. auto.
Qed.

Lemma negative_count_is_never_refused_witness :
  let a' := Nat.iter 3 (update_video_usage no_fault) app_dave in
  (remaining_videos (session a') <= remaining_videos (session app_dave))%Z /\
  fst (check_video_limit a') = true /\
  trace (snd (check_video_limit a')) = trace a'.
Proof.
  apply (negative_count_is_never_refused no_fault app_dave 3).
  vm_compute. reflexivity.
Defined.

(** ** The string functions of the download step *)

Lemma replace_from_skip (old new : list N) (s : list N) (k : nat) :
  replace_from old new k s = str_replace old new (drop k s).
Proof.
  revert k. induction s as [|c rest IH]; intros k.
  - destruct k; reflexivity.
  - destruct k as [|k]; [reflexivity|]. cbn [replace_from drop]. apply IH.
Qed.

Lemma str_replace_x_com_cons (c : N) (rest : list N) :
  str_replace x_com twitter_com (c :: rest) =
  if starts_with x_com (c :: rest)
  then twitter_com ++ str_replace x_com twitter_com (drop 4 rest)
  else c :: str_replace x_com twitter_com rest.
Proof.
  unfold str_replace at 1. cbn [replace_from].
  destruct (starts_with x_com (c :: rest)); [|reflexivity].
  f_equal. apply (replace_from_skip x_com twitter_com rest 4).
Qed.

Lemma starts_with_app (p l m : list N) :
  length p <= length l -> starts_with p (l ++ m) = starts_with p l.
Proof.
  revert l. induction p as [|x p IH]; intros l Hlen; [reflexivity|].
  destruct l as [|y l]; cbn in Hlen; [lia|].
  cbn. rewrite IH by lia. reflexivity.
Qed.

Lemma contains_twitter_com_app (r : list N) :
  contains x_com (twitter_com ++ r) = contains x_com r.
Proof. reflexivity. Qed.

(** A piece of [".com"] found at the head of the rewritten text was
    already at the head of the original: what is written starts with
    [t]. *)
Lemma starts_with_str_replace (p s : list N) :
  Forall (fun c => c <> 116%N) p ->
  starts_with p (str_replace x_com twitter_com s) = true ->
  starts_with p s = true.
Proof.
  intros Hp. revert s.
  induction Hp as [|x p Hx Hp IH]; intros s H; [reflexivity|].
  destruct s as [|c rest]; [discriminate H|].
  rewrite str_replace_x_com_cons in H.
  destruct (starts_with x_com (c :: rest)).
  - cbn in H. apply andb_true_iff in H as [H _].
    apply N.eqb_eq in H. contradiction.
  - cbn in H |- *. apply andb_true_iff in H as [H1 H2].
    rewrite H1. cbn. apply IH, H2.
Qed.

Lemma str_replace_clean_upto (n : nat) (s : list N) :
  length s <= n -> contains x_com (str_replace x_com twitter_com s) = false.
Proof.
  revert s. induction n as [|n IH]; intros s Hlen.
  - destruct s; [reflexivity | cbn in Hlen; lia].
  - destruct s as [|c rest]; [reflexivity|].
    cbn in Hlen. rewrite str_replace_x_com_cons.
    destruct (starts_with x_com (c :: rest)) eqn:Hs.
    + rewrite contains_twitter_com_app. apply IH.
      rewrite length_drop. lia.
    + cbn [contains]. rewrite IH by lia. rewrite orb_false_r.
      apply not_true_is_false. intros H. cbn in H.
      apply andb_true_iff in H as [H1 H2].
      apply (starts_with_str_replace (text_of ".com")) in H2.
      * cbn in Hs. rewrite H1 in Hs. cbn in Hs, H2. congruence.
      * repeat constructor; discriminate.
Qed.

Lemma contains_app_l (p a b : list N) :
  starts_with p b = true -> contains p (a ++ b) = true.
Proof.
  intros H. induction a as [|c a IH].
  - destruct b; cbn; rewrite H; reflexivity.
  - cbn [Datatypes.app contains]. rewrite IH. apply orb_true_r.
Qed.

Lemma str_replace_first (a b : list N) :
  contains x_com (a ++ text_of "x.co") = false ->
  str_replace x_com twitter_com (a ++ x_com ++ b) =
  a ++ twitter_com ++ str_replace x_com twitter_com b.
Proof.
  induction a as [|c a IH]; intros H.
  - reflexivity.
  - cbn [Datatypes.app contains] in H. apply orb_false_iff in H as [H1 H2].
    change ((c :: a) ++ x_com ++ b) with (c :: (a ++ x_com ++ b)).
    rewrite str_replace_x_com_cons.
    replace (starts_with x_com (c :: a ++ x_com ++ b)) with false.
    + cbn [Datatypes.app]. f_equal. apply IH, H2.
    + rewrite <- H1.
      change (c :: a ++ x_com ++ b)
        with ((c :: a) ++ (text_of "x.co" ++ [109%N]) ++ b).
      rewrite <- !app_assoc, app_assoc.
      symmetry. apply starts_with_app.
      cbn [length]. rewrite length_app. cbn. lia.
Qed.

Section SanitizeFilenameFacts.

Variable unicode_word : N -> bool.
Variable unicode_space : N -> bool.

Local Notation word := (is_word unicode_word).
Local Notation separator := (is_separator unicode_space).
Local Notation cleaned := (remove_special unicode_word unicode_space).
Local Notation collapsed := (collapse_separators unicode_space).
Local Notation sanitized := (sanitize_filename unicode_word unicode_space).
Local Notation plain := (plain unicode_word unicode_space).

Lemma plain_underscore : plain underscore.
Proof. split; reflexivity. Qed.

Lemma remove_special_kept (title : list N) :
  Forall (fun c => word c = true \/ separator c = true)
    (cleaned title).
Proof.
  apply Forall_forall. intros c Hc.
  apply list_elem_of_In, filter_In in Hc as [_ Hc]. unfold is_separator.
  apply orb_true_iff in Hc as [Hc|Hc];
    [apply orb_true_iff in Hc as [Hc|Hc]|]; rewrite Hc; auto using orb_true_r.
Qed.

Lemma collapse_separators_plain (in_run : bool) (s : list N) :
  Forall (fun c => word c = true \/ separator c = true) s ->
  Forall plain (collapsed in_run s).
Proof.
  intros H. revert in_run.
  induction H as [|c s Hc Hs IH]; intros in_run; [constructor|].
  cbn [collapse_separators].
  destruct (separator c) eqn:Hsep.
  - destruct in_run; [apply IH|].
    constructor; [apply plain_underscore | apply IH].
  - constructor; [|apply IH]. split; [|exact Hsep].
    destruct Hc as [Hc|Hc]; congruence.
Qed.

Lemma lstrip_suffix (c : N) (s : list N) : exists k, lstrip c s = drop k s.
Proof.
  induction s as [|x s [k IH]]; [exists 0; reflexivity|].
  cbn. destruct (x =? c)%N; [exists (S k); exact IH | exists 0; reflexivity].
Qed.

Lemma lstrip_head (c : N) (s : list N) : head (lstrip c s) <> Some c.
Proof.
  induction s as [|x s IH]; [discriminate|].
  cbn. destruct (x =? c)%N eqn:E; [exact IH|].
  cbn. intros [= ->]. rewrite N.eqb_refl in E. discriminate.
Qed.

Lemma lstrip_fixed (c : N) (s : list N) :
  head s <> Some c -> lstrip c s = s.
Proof.
  destruct s as [|x s]; [reflexivity|]. cbn. intros H.
  destruct (x =? c)%N eqn:E; [|reflexivity].
  apply N.eqb_eq in E. congruence.
Qed.

Lemma lstrip_all (c : N) (s : list N) :
  Forall (fun x => x = c) s -> lstrip c s = [].
Proof.
  induction 1 as [|x s -> _ IH]; [reflexivity|].
  cbn. rewrite N.eqb_refl. exact IH.
Qed.

Lemma strip_take (c : N) (s : list N) :
  exists n, strip c s = take n (lstrip c s).
Proof.
  unfold strip. destruct (lstrip_suffix c (rev (lstrip c s))) as [j ->].
  rewrite skipn_rev, rev_involutive. eauto.
Qed.

Lemma strip_Forall (P : N -> Prop) (c : N) (s : list N) :
  Forall P s -> Forall P (strip c s).
Proof.
  intros H. destruct (strip_take c s) as [n ->].
  destruct (lstrip_suffix c s) as [k ->].
  apply Forall_take, Forall_drop, H.
Qed.

Lemma strip_length (c : N) (s : list N) : length (strip c s) <= length s.
Proof.
  destruct (strip_take c s) as [n ->].
  destruct (lstrip_suffix c s) as [k ->].
  rewrite length_take, length_drop. lia.
Qed.

Lemma strip_head (c : N) (s : list N) : head (strip c s) <> Some c.
Proof.
  destruct (strip_take c s) as [n ->].
  pose proof (lstrip_head c s) as H.
  destruct n, (lstrip c s); cbn; try discriminate; exact H.
Qed.

Lemma strip_last (c : N) (s : list N) : last (strip c s) <> Some c.
Proof.
  unfold strip. rewrite rev_alt. change (rev_append ?l []) with (reverse l).
  rewrite last_reverse. apply lstrip_head.
Qed.

Lemma strip_fixed (c : N) (s : list N) :
  head s <> Some c -> last s <> Some c -> strip c s = s.
Proof.
  intros Hh Hl. unfold strip. rewrite (lstrip_fixed c s Hh).
  rewrite lstrip_fixed; [apply rev_involutive|].
  rewrite rev_alt. change (rev_append ?l []) with (reverse l).
  rewrite head_reverse. exact Hl.
Qed.

Lemma remove_special_fixed (s : list N) :
  Forall plain s -> cleaned s = s.
Proof.
  induction 1 as [|c s [Hc _] _ IH]; [reflexivity|].
  unfold remove_special in *. cbn. rewrite Hc. cbn.
  f_equal. exact IH.
Qed.

Lemma collapse_separators_fixed (s : list N) :
  Forall plain s -> collapsed false s = s.
Proof.
  induction 1 as [|c s [_ Hc] _ IH]; [reflexivity|].
  cbn. rewrite Hc. f_equal. exact IH.
Qed.

Lemma collapse_separators_underscores (in_run : bool) (s : list N) :
  Forall (fun c => c = underscore \/ separator c = true) s ->
  Forall (fun c => c = underscore) (collapsed in_run s).
Proof.
  intros H. revert in_run.
  induction H as [|c s Hc Hs IH]; intros in_run; [constructor|].
  cbn [collapse_separators].
  destruct (separator c) eqn:Hsep.
  - destruct in_run; [apply IH|]. constructor; [reflexivity | apply IH].
  - constructor; [|apply IH]. destruct Hc as [Hc|Hc]; congruence.
Qed.

Lemma collapse_separators_nil (s : list N) :
  collapsed false s = [] -> s = [].
Proof.
  destruct s as [|c s]; [reflexivity|]. cbn.
  destruct (separator c); discriminate.
Qed.

Lemma remove_special_keeps (s : list N) :
  Forall (fun c => word c = true \/ separator c = true) s ->
  cleaned s = s.
Proof.
  induction 1 as [|c s Hc _ IH]; [reflexivity|].
  unfold remove_special in *. cbn [List.filter].
  replace (word c || is_space unicode_space c || (c =? dash)%N)
    with true; [f_equal; exact IH|].
  symmetry. unfold is_separator in Hc.
  destruct Hc as [Hc|Hc]; [rewrite Hc; reflexivity|].
  apply orb_true_iff in Hc as [Hc|Hc]; rewrite Hc, ?orb_true_r;
    reflexivity.
Qed.

Lemma sanitize_filename_steps (title : list N) :
  exists s, Forall plain s /\ s <> [] /\
    sanitized title = strip underscore (take 100 s) /\
    (collapsed false (cleaned title) = [] -> s = text_of "video") /\
    (collapsed false (cleaned title) <> [] ->
     s = collapsed false (cleaned title)).
Proof.
  unfold sanitize_filename.
  pose proof (collapse_separators_plain false _
                (remove_special_kept title)) as Hp.
  destruct (collapsed false (cleaned title)) as [|c s] eqn:E.
  - exists (text_of "video").
    split; [repeat constructor|]. split; [discriminate|].
    split; [reflexivity|]. split; [reflexivity|]. congruence.
  - exists (c :: s). split; [exact Hp|]. split; [discriminate|].
    split; [reflexivity|]. split; [discriminate | reflexivity].
Qed.

End SanitizeFilenameFacts.

(** X20.  [_normalize_url] leaves no occurrence of [x.com] in the URL it
    returns, so that normalizing twice is normalizing once, and it returns
    a URL without [x.com] as it is. *)
Theorem normalize_url_removes_x_com (url : list N) :
  contains x_com (normalize_url url) = false /\
  normalize_url (normalize_url url) = normalize_url url /\
  (contains x_com url = false -> normalize_url url = url).
Proof.
  assert (Hclean : contains x_com (normalize_url url) = false).
  { unfold normalize_url. destruct (contains x_com url) eqn:E; [|exact E].
    apply (str_replace_clean_upto (length url)). lia. }
  split; [exact Hclean|]. split.
  - unfold normalize_url at 1. rewrite Hclean. reflexivity.
  - intros H. unfold normalize_url. rewrite H. reflexivity.
Qed.

(** X21.  [_normalize_url] does not look at where the host name of the
    URL begins or ends: the first occurrence of the five characters
    [x.com], wherever it stands, becomes [twitter.com], and what follows
    it is rewritten in the same way.  A host name that ends in [x.com],
    such as [netflix.com], is rewritten as well. *)
Theorem normalize_url_rewrites_first_occurrence (a b : list N) :
  contains x_com (a ++ text_of "x.co") = false ->
  normalize_url (a ++ x_com ++ b) =
  a ++ twitter_com ++ str_replace x_com twitter_com b.
Proof.
  intros H. unfold normalize_url.
  rewrite (contains_app_l x_com a (x_com ++ b)) by reflexivity.
  apply str_replace_first, H.
Qed.

Lemma normalize_url_rewrites_first_occurrence_witness :
  contains x_com (text_of "https://netfli" ++ text_of "x.co") = false /\
  normalize_url (text_of "https://netfli" ++ x_com ++ text_of "/watch") =
  text_of "https://netflitwitter.com/watch".
Proof.
  split; [reflexivity|].
  apply (normalize_url_rewrites_first_occurrence
           (text_of "https://netfli") (text_of "/watch")).
  reflexivity.
Defined.

(** X22.  Whatever the title, [_sanitize_filename] returns at most 100
    characters, each of them a word character (a letter, a digit or the
    underscore) and none of them a dash or white space, and the name
    neither begins nor ends with an underscore. *)
Theorem sanitize_filename_shape
    (unicode_word unicode_space : N -> bool) (title : list N) :
  let name := sanitize_filename unicode_word unicode_space title in
  length name <= 100 /\
  Forall (plain unicode_word unicode_space) name /\
  head name <> Some underscore /\
  last name <> Some underscore.
Proof.
  cbv zeta.
  destruct (sanitize_filename_steps unicode_word unicode_space title)
    as (s & Hp & _ & -> & _).
  split; [|split; [|split]].
  - etrans; [apply strip_length|]. rewrite length_take. lia.
  - apply strip_Forall, Forall_take, Hp.
  - apply strip_head.
  - apply strip_last.
Qed.

(** X23.  A title of which no character is a word character, white space
    or a dash (the empty title among them) is given the name [video]. *)
Theorem sanitize_filename_falls_back_to_video
    (unicode_word unicode_space : N -> bool) (title : list N) :
  Forall (fun c => is_word unicode_word c = false /\
                   is_space unicode_space c = false /\ c <> dash) title ->
  sanitize_filename unicode_word unicode_space title = text_of "video".
Proof.
  intros H. unfold sanitize_filename.
  replace (remove_special unicode_word unicode_space title) with (@nil N);
    [reflexivity|].
  symmetry. induction H as [|c s (Hw & Hs & Hd) _ IH]; [reflexivity|].
  unfold remove_special in *. cbn [List.filter].
  rewrite Hw, Hs. apply N.eqb_neq in Hd. rewrite Hd. exact IH.
Qed.

Lemma sanitize_filename_falls_back_to_video_witness :
  Forall (fun c => is_word ascii_only c = false /\
                   is_space ascii_only c = false /\ c <> dash)
    (text_of "?!") /\
  sanitize_filename ascii_only ascii_only (text_of "?!") = text_of "video".
Proof.
  assert (H : Forall (fun c => is_word ascii_only c = false /\
                     is_space ascii_only c = false /\ c <> dash)
                (text_of "?!")).
  { repeat constructor; discriminate. }
  split; [exact H|].
  apply (sanitize_filename_falls_back_to_video
           ascii_only ascii_only (text_of "?!") H).
Defined.

(** X24.  The fallback to [video] is taken before the underscores are
    stripped: a title that is not empty and consists of underscores,
    dashes and white space only is given the empty name. *)
Theorem sanitize_filename_can_be_empty
    (unicode_word unicode_space : N -> bool) (title : list N) :
  title <> [] ->
  Forall (fun c => c = underscore \/ is_separator unicode_space c = true)
    title ->
  sanitize_filename unicode_word unicode_space title = [].
Proof.
  intros Hne H. unfold sanitize_filename.
  rewrite remove_special_keeps.
  2:{ eapply Forall_impl; [exact H|]. intros c [->|Hc]; auto. }
  pose proof (collapse_separators_underscores unicode_space false title H)
    as Hu.
  destruct (collapse_separators unicode_space false title) as [|c s] eqn:E.
  - apply collapse_separators_nil in E. contradiction.
  - unfold strip.
    rewrite (lstrip_all underscore (take 100 (c :: s)));
      [reflexivity | apply Forall_take, Hu].
Qed.

Lemma sanitize_filename_can_be_empty_witness :
  text_of " - _" <> [] /\
  Forall (fun c => c = underscore \/ is_separator ascii_only c = true)
    (text_of " - _") /\
  sanitize_filename ascii_only ascii_only (text_of " - _") = [].
Proof.
  assert (H : Forall (fun c => c = underscore \/
                               is_separator ascii_only c = true)
                (text_of " - _")).
  { repeat constructor; (left; reflexivity) || (right; reflexivity). }
  split; [discriminate|]. split; [exact H|].
  apply (sanitize_filename_can_be_empty ascii_only ascii_only
           (text_of " - _")); [discriminate | exact H].
Defined.

(** X25.  A name that [_sanitize_filename] returned is returned unchanged
    when it is sanitized again, except the empty name, which becomes
    [video]. *)
Theorem sanitize_filename_twice
    (unicode_word unicode_space : N -> bool) (title : list N) :
  sanitize_filename unicode_word unicode_space
    (sanitize_filename unicode_word unicode_space title) =
  match sanitize_filename unicode_word unicode_space title with
  | [] => text_of "video"
  | c :: name => c :: name
  end.
Proof.
  destruct (sanitize_filename_steps unicode_word unicode_space title)
    as (s & Hp & _ & Heq & _).
  assert (Hlen : length (sanitize_filename unicode_word unicode_space title)
                 <= 100).
  { rewrite Heq. etrans; [apply strip_length|]. rewrite length_take. lia. }
  assert (Hplain : Forall (plain unicode_word unicode_space)
                     (sanitize_filename unicode_word unicode_space title)).
  { rewrite Heq. apply strip_Forall, Forall_take, Hp. }
  assert (Hhead : head (sanitize_filename unicode_word unicode_space title)
                  <> Some underscore).
  { rewrite Heq. apply strip_head. }
  assert (Hlast : last (sanitize_filename unicode_word unicode_space title)
                  <> Some underscore).
  { rewrite Heq. apply strip_last. }
  destruct (sanitize_filename unicode_word unicode_space title)
    as [|c name]; [reflexivity|].
  unfold sanitize_filename.
  rewrite (remove_special_fixed _ _ _ Hplain).
  rewrite (collapse_separators_fixed _ _ _ Hplain).
  rewrite take_ge by exact Hlen.
  apply strip_fixed; assumption.
Qed.
